(** * Elastic operators of [models/inception_resnet_v1.py]

    A shallow embedding of the elastic ("super") convolution, the elastic
    sequential container, the sub-network configuration protocol and the
    parameter accounting of [models/inception_resnet_v1.py], followed by
    the properties of the specification that concern them.

    Conventions of the embedding.
    - Python integers are [Z]; the optional arguments of a method are
      [option Z] ([None] is Python's [None]).
    - A method that mutates [self] takes the object and returns the
      mutated object inside [result]; [Raise e] is a Python exception.
    - A tensor is a nested list of its elements; the element type [A] is
      kept abstract (the code never computes on single elements outside
      [torch.nn.functional.conv2d]).
    - A Python [dict] with string keys is a [gmap string _]. *)

From Stdlib Require Import ZArith QArith Qcanon Lia.
From stdpp Require Import base numbers option list gmap strings.

Set Default Proof Using "Type".
Set Warnings "-clear-no-such-hyp".
Local Open Scope Z_scope.

(** ** Exceptions and the result of a call *)

Inductive exn : Type :=
  | IndexError
  | KeyError (key : string)
  | AttributeError
  | RuntimeError
  | OverflowError.

Inductive result (T : Type) : Type :=
  | Ok (v : T)
  | Raise (e : exn).
Arguments Ok {T} v.
Arguments Raise {T} e.

#[global] Instance result_ret : MRet result := fun _ v => Ok v.
#[global] Instance result_bind : MBind result := fun _ _ f m =>
  match m with
  | Ok v => f v
  | Raise e => Raise e
  end.

#[global] Instance result_fmap : FMap result := fun _ _ f m =>
  match m with
  | Ok v => Ok (f v)
  | Raise e => Raise e
  end.

Definition raises {T : Type} (r : result T) : Prop :=
  match r with
  | Ok _ => False
  | Raise _ => True
  end.

(** [d[key]] on a dictionary: the value, or [KeyError]. *)
Definition dict_get {V : Type} (d : gmap string V) (key : string) : result V :=
  match d !! key with
  | Some v => Ok v
  | None => Raise (KeyError key)
  end.

(** ** True division of an integer by [1024**2]

    Python's [a / b] on integers returns the float nearest to the
    quotient, ties to even, and raises [OverflowError] when the quotient
    is beyond the range of a float.  A float has 53 significant bits;
    the divisor [1024**2] is [2**20], so the quotient of [a] is rounded
    exactly as [a] is, and it cannot underflow.  A float is given here by
    the rational number that is its value. *)

(** [a] rounded to 53 significant bits, ties to even. *)
Definition round_53_bits (a : Z) : Z :=
  let n := Z.abs a in
  let shift := Z.log2 n + 1 - 53 in
  if shift <=? 0 then a
  else
    let q := n / 2 ^ shift in
    let r := n mod 2 ^ shift in
    let half := 2 ^ (shift - 1) in
    let m := if (half <? r) || ((r =? half) && Z.odd q) then q + 1 else q in
    Z.sgn a * (m * 2 ^ shift).

(** [a / (1024**2)]; the largest float is below [2**1024]. *)
Definition py_truediv_1024_2 (a : Z) : result Qc :=
  let v := round_53_bits a in
  if 2 ^ (1024 + 20) <=? Z.abs v then Raise OverflowError
  else Ok (Qc_of_Z v / Qc_of_Z (1024 ^ 2))%Qc.

(** ** Python slicing

    [l[:stop]] for an integer [stop]: the first [stop] elements when
    [stop] is not negative (all of [l] when [stop] exceeds its length),
    and all but the last [-stop] elements when [stop] is negative. *)

Definition py_slice_stop {T : Type} (stop : Z) (l : list T) : list T :=
  if 0 <=? stop then take (Z.to_nat stop) l
  else take (Z.to_nat (Z.of_nat (length l) + stop)) l.

(** [range(n)]: [0, 1, ..., n-1], empty when [n <= 0]. *)
Definition py_range (n : Z) : list Z :=
  (fun i : nat => Z.of_nat i) <$> seq 0 (Z.to_nat n).

(** [zip(xs, ys)] stops at the shorter of its two arguments. *)
Fixpoint py_zip {S T : Type} (xs : list S) (ys : list T) : list (S * T) :=
  match xs, ys with
  | x :: xs', y :: ys' => (x, y) :: py_zip xs' ys'
  | _, _ => []
  end.

(** ** Tensors *)

Abbreviation tensor1 A := (list A) (only parsing).
Abbreviation tensor4 A := (list (list (list (list A)))) (only parsing).

(** The values stored in [self.subnet]: a weight (rank 4) or a bias
    (rank 1). *)
Inductive tensor (A : Type) : Type :=
  | T1 (b : tensor1 A)
  | T4 (w : tensor4 A).
Arguments T1 {A} b.
Arguments T4 {A} w.

(** [t.to(device)] moves the storage and keeps shape and values; the
    embedding has no notion of device. *)
Definition tensor_to {A : Type} (t : tensor A) (device : string) : tensor A := t.

(** A rank-4 nested list has shape [(d0, d1, d2, d3)]. *)
Definition has_shape4 {A : Type} (t : tensor4 A) (d0 d1 d2 d3 : nat) : Prop :=
  length t = d0 ∧
  Forall (fun t1 => length t1 = d1 ∧
    Forall (fun t2 => length t2 = d2 ∧
      Forall (fun t3 : list A => length t3 = d3) t2) t1) t.

(** [t[o, i, p, q]] for indices inside the tensor. *)
Definition at4 {A : Type} (t : tensor4 A) (o i p q : nat) : option A :=
  t1 ← t !! o;
  t2 ← (t1 : list (list (list A))) !! i;
  t3 ← (t2 : list (list A)) !! p;
  (t3 : list A) !! q.

(** ** Stride and padding of a convolution, as the constructors receive
    them: an integer, a pair, or the string ["same"]. *)

Inductive conv_stride : Type :=
  | StrideInt (s : Z)
  | StridePair (sh sw : Z).

Inductive conv_padding : Type :=
  | PaddingStr (mode : string)
  | PaddingInt (p : Z)
  | PaddingPair (ph pw : Z).

(** ** class SuperConv2D(nn.Conv2d) *)

Record SuperConv2D (A : Type) : Type := mkSuperConv2D {
  (* parameters owned by nn.Conv2d *)
  weight : tensor4 A;
  bias : option (tensor1 A);
  (* [self.weight.element_size()] and [self.bias.element_size()] *)
  weight_element_size : Z;
  bias_element_size : Z;
  (* maximum bounds *)
  super_in_dim : Z;
  super_out_dim : Z;
  super_kernel_size : Z;
  stride : conv_stride;
  padding : conv_padding;
  subnet : gmap string (tensor A);
  profiling : bool;
  (* runtime configuration *)
  subnet_in_dim : Z;
  subnet_out_dim : Z;
  subnet_kernel_size : Z
}.
Arguments mkSuperConv2D {A}.
Arguments weight {A} _.
Arguments bias {A} _.
Arguments weight_element_size {A} _.
Arguments bias_element_size {A} _.
Arguments super_in_dim {A} _.
Arguments super_out_dim {A} _.
Arguments super_kernel_size {A} _.
Arguments stride {A} _.
Arguments padding {A} _.
Arguments subnet {A} _.
Arguments profiling {A} _.
Arguments subnet_in_dim {A} _.
Arguments subnet_out_dim {A} _.
Arguments subnet_kernel_size {A} _.

Section SuperConv2D.
Context {A : Type}.

(** Attribute assignments [self.f = v]. *)
Definition set_subnet_in_dim (v : Z) (self : SuperConv2D A) : SuperConv2D A :=
  mkSuperConv2D (weight self) (bias self) (weight_element_size self)
    (bias_element_size self) (super_in_dim self) (super_out_dim self)
    (super_kernel_size self) (stride self) (padding self) (subnet self)
    (profiling self) v (subnet_out_dim self) (subnet_kernel_size self).

Definition set_subnet_out_dim (v : Z) (self : SuperConv2D A) : SuperConv2D A :=
  mkSuperConv2D (weight self) (bias self) (weight_element_size self)
    (bias_element_size self) (super_in_dim self) (super_out_dim self)
    (super_kernel_size self) (stride self) (padding self) (subnet self)
    (profiling self) (subnet_in_dim self) v (subnet_kernel_size self).

Definition set_subnet_kernel_size (v : Z) (self : SuperConv2D A) : SuperConv2D A :=
  mkSuperConv2D (weight self) (bias self) (weight_element_size self)
    (bias_element_size self) (super_in_dim self) (super_out_dim self)
    (super_kernel_size self) (stride self) (padding self) (subnet self)
    (profiling self) (subnet_in_dim self) (subnet_out_dim self) v.

(** [self.subnet[key] = t] *)
Definition set_subnet_item (key : string) (t : tensor A) (self : SuperConv2D A)
    : SuperConv2D A :=
  mkSuperConv2D (weight self) (bias self) (weight_element_size self)
    (bias_element_size self) (super_in_dim self) (super_out_dim self)
    (super_kernel_size self) (stride self) (padding self)
    (<[key := t]> (subnet self))
    (profiling self) (subnet_in_dim self) (subnet_out_dim self)
    (subnet_kernel_size self).

(** [weight[:subnet_out_dim, :subnet_in_dim, :subnet_kernel_size,
    :subnet_kernel_size]] *)
Definition _subselect_weight (weight : tensor4 A)
    (subnet_in_dim subnet_out_dim subnet_kernel_size : Z) : tensor4 A :=
  (fun w1 =>
     (fun w2 =>
        (fun w3 => py_slice_stop subnet_kernel_size w3)
          <$> py_slice_stop subnet_kernel_size w2)
       <$> py_slice_stop subnet_in_dim w1)
    <$> py_slice_stop subnet_out_dim weight.

(** [bias[:subnet_out_dim]] *)
Definition _subselect_bias (bias : tensor1 A) (subnet_out_dim : Z) : tensor1 A :=
  py_slice_stop subnet_out_dim bias.

Definition _subnet_parameters (self : SuperConv2D A) : result (SuperConv2D A) :=
  let self :=
    set_subnet_item "weight"
      (tensor_to
         (T4 (_subselect_weight (weight self) (subnet_in_dim self)
                (subnet_out_dim self) (subnet_kernel_size self)))
         "cuda")
      self in
  match bias self with
  | Some b =>
      let self :=
        set_subnet_item "bias" (T1 (_subselect_bias b (subnet_out_dim self))) self in
      s ← dict_get (subnet self) "bias";
      Ok (set_subnet_item "bias" (tensor_to s "cuda") self)
  | None => Ok self
  end.

Definition set_subnet_config (subnet_in_dim subnet_out_dim subnet_kernel_size : option Z)
    (self : SuperConv2D A) : result (SuperConv2D A) :=
  let self :=
    match subnet_in_dim with
    | Some v => set_subnet_in_dim v self
    | None => self
    end in
  let self :=
    match subnet_out_dim with
    | Some v => set_subnet_out_dim v self
    | None => self
    end in
  let self :=
    match subnet_kernel_size with
    | Some v => set_subnet_kernel_size v self
    | None => self
    end in
  _subnet_parameters self.

(** [SuperConv2D.__init__].  [nn.Conv2d.__init__] allocates the weight
    and, when [bias] is true, the bias; [reset_parameters] fills them
    with random values.  The filled tensors [weight0] and [bias0] and
    the byte width [element_size] of their dtype are arguments here.
    The runtime configuration does not exist before the closing
    [set_subnet_config] call, which supplies all three fields. *)
Definition SuperConv2D_init (super_in_dim super_out_dim super_kernel_size : Z)
    (stride : conv_stride) (padding : conv_padding) (bias : bool)
    (weight0 : tensor4 A) (bias0 : tensor1 A) (element_size : Z)
    : result (SuperConv2D A) :=
  let self :=
    mkSuperConv2D weight0 (if bias then Some bias0 else None)
      element_size element_size
      super_in_dim super_out_dim super_kernel_size
      stride padding ∅ false 0 0 0 in
  set_subnet_config (Some (super_in_dim)) (Some (super_out_dim))
    (Some (super_kernel_size)) self.

(** [calculate_superconv2d_params]: the parameter count of the active
    configuration and its size in MB.  The second component is the
    outcome of the division in the [return] statement: the float it
    yields or the [OverflowError] it raises; when it raises, the call
    raises and the first component is the count that the call had
    computed. *)
Definition calculate_superconv2d_params (superconv_layer : SuperConv2D A)
    : Z * result Qc :=
  let subnet_in_dim := subnet_in_dim superconv_layer in
  let subnet_out_dim := subnet_out_dim superconv_layer in
  let subnet_kernel_size := subnet_kernel_size superconv_layer in
  let weight_params := subnet_in_dim * subnet_out_dim * (subnet_kernel_size ^ 2) in
  let weight_size := weight_params * weight_element_size superconv_layer in
  let bias_params := 0 in
  let '(bias_params, weight_size) :=
    match bias superconv_layer with
    | Some _ =>
        let bias_params := subnet_out_dim in
        (bias_params, weight_size + bias_params * bias_element_size superconv_layer)
    | None => (bias_params, weight_size)
    end in
  let total_params := weight_params + bias_params in
  (total_params, py_truediv_1024_2 weight_size).

Section forward.
(** Activations, and [torch.nn.functional.conv2d(input, weight, bias,
    stride, padding)] with [bias] optional. *)
Context {X : Type}.
Variable conv2d :
  X → tensor A → option (tensor A) → conv_stride → conv_padding → result X.

Definition SuperConv2D_forward (self : SuperConv2D A) (x : X)
    : result (X * SuperConv2D A) :=
  self ← _subnet_parameters self;
  w ← dict_get (subnet self) "weight";
  conv_out ← conv2d x w None (stride self) (padding self);
  Ok (conv_out, self).
End forward.
End SuperConv2D.

(** ** Loops

    [for x in xs: body], threading the loop state and stopping at the
    first exception. *)
Fixpoint for_loop {S T : Type} (body : S → T → result S) (xs : list T) (s : S)
    : result S :=
  match xs with
  | [] => Ok s
  | x :: xs' => s' ← body s x; for_loop body xs' s'
  end.

(** A list comprehension [[f(x) for x in xs]] whose element expression
    can raise. *)
Fixpoint comprehension {S T : Type} (f : S → result T) (xs : list S)
    : result (list T) :=
  match xs with
  | [] => Ok []
  | x :: xs' => y ← f x; ys ← comprehension f xs'; Ok (y :: ys)
  end.

(** ** class SuperSequential(nn.Sequential)

    The registered sub-modules are kept as the functions their calls
    compute; a call of a sub-module can raise. *)

Record SuperSequential (X : Type) : Type := mkSuperSequential {
  layers : list (X → result X);
  num_layers : Z
}.
Arguments mkSuperSequential {X}.
Arguments layers {X} _.
Arguments num_layers {X} _.

Section SuperSequential.
Context {X : Type}.

(** [SuperSequential.__init__]: [self.num_layers = len(self)]. *)
Definition SuperSequential_init (args : list (X → result X)) : SuperSequential X :=
  mkSuperSequential args (Z.of_nat (length args)).

(** [self[idx]] for an integer index, as [nn.Sequential.__getitem__]
    does it: [IndexError] unless [-len(self) <= idx < len(self)], and a
    negative index counts from the end. *)
Definition SuperSequential_getitem (self : SuperSequential X) (idx : Z)
    : result (X → result X) :=
  let size := Z.of_nat (length (layers self)) in
  if bool_decide (- size ≤ idx < size) then
    match layers self !! Z.to_nat (idx `mod` size) with
    | Some f => Ok f
    | None => Raise IndexError
    end
  else Raise IndexError.

Definition SuperSequential_forward (self : SuperSequential X) (x : X)
    (num_layers_arg : option Z) : result X :=
  let num_layers :=
    match num_layers_arg with
    | None => num_layers self
    | Some n => n
    end in
  for_loop
    (fun x i => f ← SuperSequential_getitem self i; f x)
    (py_range num_layers) x.

Definition set_num_layers (num_layers : Z) (self : SuperSequential X)
    : result (SuperSequential X) :=
  Ok (mkSuperSequential (layers self) num_layers).
End SuperSequential.

(** ** The module tree and the objects it refers to

    [nn.Module] keeps its registered sub-modules in [self._modules]; a
    module object may be registered at several places.  A node carries
    the identity of its object and its registered children in
    registration order; the attributes that the configuration protocol
    mutates live in a heap indexed by object identity. *)

Unset Elimination Schemes.
Inductive nn_module : Type :=
  | Node (id : nat) (children : list nn_module).
Set Elimination Schemes.

Inductive object (A X : Type) : Type :=
  | ObjSuperConv2D (op : SuperConv2D A)
  | ObjSuperSequential (op : SuperSequential X)
  | ObjModule.
Arguments ObjSuperConv2D {A X} op.
Arguments ObjSuperSequential {A X} op.
Arguments ObjModule {A X}.

(** [nn.Module.named_modules(memo)] with [remove_duplicate=True]: a
    depth-first pre-order walk that yields every object once; [memo] is
    the set of objects already yielded, shared by the whole walk.  The
    names paired with the modules are left out: no caller here reads
    them. *)
Fixpoint named_modules (m : nn_module) (memo : gset nat) : list nat * gset nat :=
  match m with
  | Node id children =>
      if decide (id ∈ memo) then ([], memo)
      else
        let memo := {[id]} ∪ memo in
        let '(ys, memo) :=
          (fix walk (cs : list nn_module) (memo : gset nat) : list nat * gset nat :=
             match cs with
             | [] => ([], memo)
             | c :: cs' =>
                 let '(ys, memo) := named_modules c memo in
                 let '(zs, memo) := walk cs' memo in
                 (ys ++ zs, memo)
             end) children memo in
        (id :: ys, memo)
  end.

Fixpoint named_modules_children (cs : list nn_module) (memo : gset nat)
    : list nat * gset nat :=
  match cs with
  | [] => ([], memo)
  | c :: cs' =>
      let '(ys, memo) := named_modules c memo in
      let '(zs, memo) := named_modules_children cs' memo in
      (ys ++ zs, memo)
  end.

(** [self.modules()] / [self.named_modules()] called on the root. *)
Definition modules (self : nn_module) : list nat := (named_modules self ∅).1.

Section Network.
Context {A X : Type}.

Definition is_SuperConv2D (h : gmap nat (object A X)) (id : nat) : bool :=
  match h !! id with
  | Some (ObjSuperConv2D _) => true
  | _ => false
  end.

Definition is_SuperSequential (h : gmap nat (object A X)) (id : nat) : bool :=
  match h !! id with
  | Some (ObjSuperSequential _) => true
  | _ => false
  end.

Definition get_super_ops (self : nn_module) (h : gmap nat (object A X)) : list nat :=
  filter (fun module => is_SuperConv2D h module) (modules self).

Definition get_super_sequential_ops (self : nn_module) (h : gmap nat (object A X))
    : list nat :=
  filter (fun module => is_SuperSequential h module) (modules self).

(** [op.set_subnet_config(subnet_kernel_size=ks)] on the object [op]
    refers to. *)
Definition call_set_subnet_config (op : nat) (subnet_kernel_size : Z)
    (h : gmap nat (object A X)) : result (gmap nat (object A X)) :=
  match h !! op with
  | Some (ObjSuperConv2D self) =>
      self ← set_subnet_config None None (Some subnet_kernel_size) self;
      Ok (<[op := ObjSuperConv2D self]> h)
  | _ => Raise AttributeError
  end.

(** [op.set_num_layers(num_layers)] *)
Definition call_set_num_layers (op : nat) (n : Z)
    (h : gmap nat (object A X)) : result (gmap nat (object A X)) :=
  match h !! op with
  | Some (ObjSuperSequential self) =>
      self ← set_num_layers n self;
      Ok (<[op := ObjSuperSequential self]> h)
  | _ => Raise AttributeError
  end.

(** [op.subnet_kernel_size] and [op.num_layers] *)
Definition read_subnet_kernel_size (h : gmap nat (object A X)) (op : nat) : result Z :=
  match h !! op with
  | Some (ObjSuperConv2D self) => Ok (subnet_kernel_size self)
  | _ => Raise AttributeError
  end.

Definition read_num_layers (h : gmap nat (object A X)) (op : nat) : result Z :=
  match h !! op with
  | Some (ObjSuperSequential self) => Ok (num_layers self)
  | _ => Raise AttributeError
  end.

Definition set_config (config : gmap string (list Z)) (self : nn_module)
    (h : gmap nat (object A X)) : result (gmap nat (object A X)) :=
  let super_ops := get_super_ops self h in
  config_ks ← dict_get config "ks";
  h ← for_loop (fun h '(ks, op) => call_set_subnet_config op ks h)
        (py_zip config_ks super_ops) h;
  let seq_ops := get_super_sequential_ops self h in
  config_num_layers ← dict_get config "num_layers";
  for_loop (fun h '(num_layers, op) => call_set_num_layers op num_layers h)
    (py_zip config_num_layers seq_ops) h.

Definition get_config (self : nn_module) (h : gmap nat (object A X))
    : result (gmap string (list Z)) :=
  let super_ops := get_super_ops self h in
  let super_sequential_ops := get_super_sequential_ops self h in
  ks ← comprehension (read_subnet_kernel_size h) super_ops;
  nl ← comprehension (read_num_layers h) super_sequential_ops;
  Ok (<["num_layers" := nl]> (<["ks" := ks]> ∅)).
End Network.

(** * Predicates and auxiliary definitions of the properties *)

Section SuperConv2D_predicates.
Context {A : Type}.
Implicit Types self : SuperConv2D A.

(** The superkernel has its maximal extent. *)
Definition superkernel_shaped self : Prop :=
  has_shape4 (weight self)
    (Z.to_nat (super_out_dim self)) (Z.to_nat (super_in_dim self))
    (Z.to_nat (super_kernel_size self)) (Z.to_nat (super_kernel_size self)) ∧
  match bias self with
  | Some b => length b = Z.to_nat (super_out_dim self)
  | None => True
  end.

(** The invariant of the active configuration. *)
Definition valid_config self : Prop :=
  0 < subnet_in_dim self ≤ super_in_dim self ∧
  0 < subnet_out_dim self ≤ super_out_dim self ∧
  0 < subnet_kernel_size self ≤ super_kernel_size self.


(** What [_subnet_parameters] leaves behind: the two entries of
    [self.subnet] are written and nothing else is touched. *)
Definition materialized self : SuperConv2D A :=
  let w :=
    T4 (_subselect_weight (weight self) (subnet_in_dim self)
          (subnet_out_dim self) (subnet_kernel_size self)) in
  match bias self with
  | Some b =>
      set_subnet_item "bias" (T1 (_subselect_bias b (subnet_out_dim self)))
        (set_subnet_item "bias" (T1 (_subselect_bias b (subnet_out_dim self)))
           (set_subnet_item "weight" w self))
  | None => set_subnet_item "weight" w self
  end.

(** The configuration that [set_subnet_config] stores. *)
Definition configured (i o k : option Z) self : SuperConv2D A :=
  let self := match i with Some v => set_subnet_in_dim v self | None => self end in
  let self := match o with Some v => set_subnet_out_dim v self | None => self end in
  match k with Some v => set_subnet_kernel_size v self | None => self end.

(** The same operator with another bias parameter (or none). *)
Definition with_bias (b : option (tensor1 A)) (element_size : Z) self
    : SuperConv2D A :=
  mkSuperConv2D (weight self) b (weight_element_size self)
    element_size (super_in_dim self) (super_out_dim self)
    (super_kernel_size self) (stride self) (padding self) (subnet self)
    (profiling self) (subnet_in_dim self) (subnet_out_dim self)
    (subnet_kernel_size self).
End SuperConv2D_predicates.

(** Concrete operators for the examples of the specification. *)




(** A small elastic convolution with a bias: [max_in = 2],
    [max_out = 3], [max_kernel = 2], active configuration (1, 2, 1). *)
Definition conv_small : SuperConv2D Z :=
  mkSuperConv2D
    [ [ [[1; 2]; [3; 4]]; [[5; 6]; [7; 8]] ];
      [ [[9; 10]; [11; 12]]; [[13; 14]; [15; 16]] ];
      [ [[17; 18]; [19; 20]]; [[21; 22]; [23; 24]] ] ]
    (Some [100; 200; 300]) 4 4 2 3 2
    (StridePair 1 1) (PaddingPair 1 1) ∅ false 1 2 1.

(** Running a list of sub-operators in order, the output of each feeding
    the next. *)
Definition run_layers {X : Type} (fs : list (X → result X)) (x : X) : result X :=
  for_loop (fun x f => f x) fs x.

(** No call of a sub-operator raises. *)
Definition layers_total {X : Type} (fs : list (X → result X)) : Prop :=
  ∀ f y, f ∈ fs → ¬ raises (f y).

(** A container of five sub-operators on integers. *)
Definition seq5 : SuperSequential Z :=
  SuperSequential_init
    [ (fun x => Ok (x + 1)); (fun x => Ok (2 * x)); (fun x => Ok (x - 3));
      (fun x => Ok (x * x)); (fun x => Ok (- x)) ].

(** The walk yields no object twice, and none that was in [memo]; it
    returns [memo] extended by what it yielded. *)
Definition walk_invariant (memo : gset nat) (r : list nat * gset nat) : Prop :=
  NoDup r.1 ∧ (∀ y, y ∈ r.1 → y ∉ memo) ∧ r.2 = memo ∪ list_to_set r.1.

(** Two heaps agree on which objects are elastic convolutions and which
    are elastic containers. *)
Definition same_types {A X : Type} (h h' : gmap nat (object A X)) : Prop :=
  ∀ id,
    is_SuperConv2D h' id = is_SuperConv2D h id ∧
    is_SuperSequential h' id = is_SuperSequential h id.

(** A small network: the root (object 0) registers an elastic convolution
    (object 1) and an elastic container (object 2); the container holds a
    second elastic convolution (object 3) and, once more, object 1. *)
Definition net_small : nn_module :=
  Node 0 [Node 1 []; Node 2 [Node 3 []; Node 1 []]].

Definition heap_small : gmap nat (object Z Z) :=
  <[0%nat := ObjModule]>
    (<[1%nat := ObjSuperConv2D conv_small]>
       (<[2%nat := ObjSuperSequential seq5]>
          (<[3%nat := ObjSuperConv2D conv_small]> ∅))).

(** * Properties *)

(** ** Slices *)

Lemma bind_Ok {S T : Type} (v : S) (f : S → result T) : (Ok v ≫= f) = f v.
Proof. reflexivity. Qed.

Lemma bind_Raise {S T : Type} (e : exn) (f : S → result T) :
  (Raise e ≫= f) = Raise e.
Proof. reflexivity. Qed.



(** The division rounds to the nearest float, ties to even, and raises
    when the quotient is beyond the floats. *)
Example round_53_bits_ties_to_even :
  round_53_bits (2 ^ 53 + 1) = 2 ^ 53 ∧ round_53_bits (2 ^ 53 + 3) = 2 ^ 53 + 4 ∧
  round_53_bits (- (2 ^ 53 + 3)) = - (2 ^ 53 + 4) ∧
  round_53_bits (2 ^ 54 - 1) = 2 ^ 54.
Proof. vm_compute. done. Qed.

Example py_truediv_1024_2_overflow :
  py_truediv_1024_2 (2 ^ 1044) = Raise OverflowError ∧
  py_truediv_1024_2 (2 ^ 1044 - 1) = Raise OverflowError ∧
  py_truediv_1024_2 (2 ^ 1044 - 2 ^ 991) =
    Ok (Qc_of_Z (2 ^ 1044 - 2 ^ 991) / Qc_of_Z (1024 ^ 2))%Qc.
Proof.
  unfold py_truediv_1024_2.
  replace (round_53_bits (2 ^ 1044)) with (2 ^ 1044) by (vm_compute; reflexivity).
  replace (round_53_bits (2 ^ 1044 - 1)) with (2 ^ 1044) by (vm_compute; reflexivity).
  replace (round_53_bits (2 ^ 1044 - 2 ^ 991)) with (2 ^ 1044 - 2 ^ 991)
    by (vm_compute; reflexivity).
  replace (2 ^ (1024 + 20) <=? Z.abs (2 ^ 1044)) with true by (vm_compute; reflexivity).
  replace (2 ^ (1024 + 20) <=? Z.abs (2 ^ 1044 - 2 ^ 991)) with false
    by (vm_compute; reflexivity).
  done.
Qed.

Section slices.
Context {T : Type}.
Implicit Types l : list T.

Lemma py_slice_stop_nonneg (n : Z) l :
  0 ≤ n → py_slice_stop n l = take (Z.to_nat n) l.
Proof.
  intros Hn. unfold py_slice_stop.
  destruct (0 <=? n) eqn:E; [done | lia].
Qed.

Lemma py_slice_stop_length (n : Z) l :
  0 ≤ n → length (py_slice_stop n l) = (Z.to_nat n `min` length l)%nat.
Proof. intros Hn. rewrite py_slice_stop_nonneg by done. apply length_take. Qed.

Lemma py_slice_stop_lookup (n : Z) l (i : nat) :
  0 ≤ n →
  py_slice_stop n l !! i = if decide (i < Z.to_nat n)%nat then l !! i else None.
Proof.
  intros Hn. rewrite py_slice_stop_nonneg by done.
  case_decide.
  - by apply lookup_take_lt.
  - apply lookup_take_ge. lia.
Qed.

Lemma py_slice_stop_Forall (P : T → Prop) (n : Z) l :
  Forall P l → Forall P (py_slice_stop n l).
Proof.
  intros H. unfold py_slice_stop.
  destruct (0 <=? n); by apply Forall_take.
Qed.
End slices.

Section SuperConv2D_facts.
Context {A : Type}.
Implicit Types self : SuperConv2D A.

Lemma _subselect_weight_shape (w : tensor4 A) (d0 d1 d2 d3 : nat) (i o k : Z) :
  0 ≤ i → 0 ≤ o → 0 ≤ k →
  has_shape4 w d0 d1 d2 d3 →
  has_shape4 (_subselect_weight w i o k)
    (Z.to_nat o `min` d0) (Z.to_nat i `min` d1)
    (Z.to_nat k `min` d2) (Z.to_nat k `min` d3).
Proof.
  intros Hi Ho Hk [H0 H1]. unfold _subselect_weight. split.
  { rewrite length_fmap, py_slice_stop_length by done. lia. }
  apply Forall_fmap, py_slice_stop_Forall.
  eapply Forall_impl; [exact H1 |]. intros w1 [L1 F1]; unfold compose. split.
  { rewrite length_fmap, py_slice_stop_length by done. lia. }
  apply Forall_fmap, py_slice_stop_Forall.
  eapply Forall_impl; [exact F1 |]. intros w2 [L2 F2]; unfold compose. split.
  { rewrite length_fmap, py_slice_stop_length by done. lia. }
  apply Forall_fmap, py_slice_stop_Forall.
  eapply Forall_impl; [exact F2 |]. intros w3 L3; unfold compose; cbv beta in L3.
  rewrite py_slice_stop_length by done. lia.
Qed.

Lemma _subselect_weight_at (w : tensor4 A) (i o k : Z) (io ii ip iq : nat) :
  0 ≤ i → 0 ≤ o → 0 ≤ k →
  at4 (_subselect_weight w i o k) io ii ip iq =
    if decide ((io < Z.to_nat o)%nat ∧ (ii < Z.to_nat i)%nat ∧
               (ip < Z.to_nat k)%nat ∧ (iq < Z.to_nat k)%nat)
    then at4 w io ii ip iq else None.
Proof.
  intros Hi Ho Hk. unfold at4, _subselect_weight.
  rewrite list_lookup_fmap, py_slice_stop_lookup by done.
  destruct (decide (io < Z.to_nat o)%nat) as [Ho'|Ho'];
    [| rewrite decide_False by lia; done].
  destruct (w !! io) as [w1|]; simpl; [| by case_decide].
  rewrite list_lookup_fmap, py_slice_stop_lookup by done.
  destruct (decide (ii < Z.to_nat i)%nat) as [Hi'|Hi'];
    [| rewrite decide_False by lia; done].
  destruct (w1 !! ii) as [w2|]; simpl; [| by case_decide].
  rewrite list_lookup_fmap, py_slice_stop_lookup by done.
  destruct (decide (ip < Z.to_nat k)%nat) as [Hp'|Hp'];
    [| rewrite decide_False by lia; done].
  destruct (w2 !! ip) as [w3|]; simpl; [| by case_decide].
  rewrite py_slice_stop_lookup by done.
  destruct (decide (iq < Z.to_nat k)%nat) as [Hq'|Hq'].
  - by rewrite decide_True by lia.
  - by rewrite decide_False by lia.
Qed.

Lemma _subnet_parameters_ok self :
  _subnet_parameters self = Ok (materialized self).
Proof.
  unfold _subnet_parameters, materialized, tensor_to.
  destruct (bias self) as [b|] eqn:Hb; simpl; rewrite Hb; [| done].
  unfold dict_get; simpl. by rewrite lookup_insert_eq.
Qed.

Lemma materialized_weight_entry self :
  subnet (materialized self) !! "weight" =
    Some (T4 (_subselect_weight (weight self) (subnet_in_dim self)
                (subnet_out_dim self) (subnet_kernel_size self))).
Proof.
  unfold materialized. destruct (bias self); simpl.
  - rewrite !lookup_insert_ne by done. by rewrite lookup_insert_eq.
  - by rewrite lookup_insert_eq.
Qed.

Lemma materialized_bias_entry self :
  subnet (materialized self) !! "bias" =
    match bias self with
    | Some b => Some (T1 (_subselect_bias b (subnet_out_dim self)))
    | None => subnet self !! "bias"
    end.
Proof.
  unfold materialized. destruct (bias self); simpl.
  - by rewrite lookup_insert_eq.
  - by rewrite lookup_insert_ne by done.
Qed.

Lemma set_subnet_config_ok (i o k : option Z) self :
  set_subnet_config i o k self = Ok (materialized (configured i o k self)).
Proof. unfold set_subnet_config. by rewrite _subnet_parameters_ok. Qed.

Lemma configured_fields (i o k : option Z) self :
  let self' := configured i o k self in
  subnet_in_dim self' = default (subnet_in_dim self) i ∧
  subnet_out_dim self' = default (subnet_out_dim self) o ∧
  subnet_kernel_size self' = default (subnet_kernel_size self) k ∧
  weight self' = weight self ∧ bias self' = bias self ∧
  weight_element_size self' = weight_element_size self ∧
  bias_element_size self' = bias_element_size self ∧
  super_in_dim self' = super_in_dim self ∧
  super_out_dim self' = super_out_dim self ∧
  super_kernel_size self' = super_kernel_size self ∧
  stride self' = stride self ∧ padding self' = padding self ∧
  subnet self' = subnet self ∧ profiling self' = profiling self.
Proof. destruct i, o, k; simpl; repeat split. Qed.

Lemma materialized_fields self :
  let self' := materialized self in
  subnet_in_dim self' = subnet_in_dim self ∧
  subnet_out_dim self' = subnet_out_dim self ∧
  subnet_kernel_size self' = subnet_kernel_size self ∧
  weight self' = weight self ∧ bias self' = bias self ∧
  weight_element_size self' = weight_element_size self ∧
  bias_element_size self' = bias_element_size self ∧
  super_in_dim self' = super_in_dim self ∧
  super_out_dim self' = super_out_dim self ∧
  super_kernel_size self' = super_kernel_size self ∧
  stride self' = stride self ∧ padding self' = padding self ∧
  profiling self' = profiling self.
Proof.
  unfold materialized. destruct (bias self) eqn:Hb; simpl; repeat split; done.
Qed.
End SuperConv2D_facts.

(** ** The elastic convolution *)

Section SuperConv2D_claims.
Context {A : Type}.
Implicit Types self : SuperConv2D A.

(** The whole effect of one [set_subnet_config] call. *)
Lemma set_subnet_config_effect (i o k : option Z) self :
  ∃ self',
    set_subnet_config i o k self = Ok self' ∧
    subnet_in_dim self' = default (subnet_in_dim self) i ∧
    subnet_out_dim self' = default (subnet_out_dim self) o ∧
    subnet_kernel_size self' = default (subnet_kernel_size self) k ∧
    subnet self' !! "weight" =
      Some (T4 (_subselect_weight (weight self) (subnet_in_dim self')
                  (subnet_out_dim self') (subnet_kernel_size self'))) ∧
    match bias self with
    | Some b =>
        subnet self' !! "bias" = Some (T1 (_subselect_bias b (subnet_out_dim self')))
    | None => subnet self' !! "bias" = subnet self !! "bias"
    end ∧
    weight self' = weight self ∧ bias self' = bias self ∧
    super_in_dim self' = super_in_dim self ∧
    super_out_dim self' = super_out_dim self ∧
    super_kernel_size self' = super_kernel_size self ∧
    stride self' = stride self ∧ padding self' = padding self.
Proof.
  exists (materialized (configured i o k self)).
  pose proof (configured_fields i o k self) as Hc. cbv zeta in Hc.
  pose proof (materialized_fields (configured i o k self)) as Hm. cbv zeta in Hm.
  destruct Hc as (Ci & Co & Ck & Cw & Cb & _ & _ & Csi & Cso & Csk & Cst & Cpd & Csub & _).
  destruct Hm as (Mi & Mo & Mk & Mw & Mb & _ & _ & Msi & Mso & Msk & Mst & Mpd & _).
  split; [apply set_subnet_config_ok |].
  rewrite Mi, Mo, Mk, Ci, Co, Ck.
  repeat split; try congruence.
  - rewrite materialized_weight_entry. by rewrite Ci, Co, Ck, Cw.
  - rewrite materialized_bias_entry, Cb, Co, Csub. by destruct (bias self).
Qed.


(** C7. [set_subnet_config] never raises; it overwrites exactly the
    configuration fields whose argument is not [None] and keeps the
    others, and before it returns [self.subnet["weight"]] holds the
    slice of the superkernel for the new configuration, and
    [self.subnet["bias"]] the slice of the bias when the operator has
    one.  The superkernel, the bias, the maximal bounds, stride and
    padding are not touched. *)
Theorem set_subnet_config_updates_supplied_fields (i o k : option Z) self :
  ∃ self',
    set_subnet_config i o k self = Ok self' ∧
    subnet_in_dim self' = default (subnet_in_dim self) i ∧
    subnet_out_dim self' = default (subnet_out_dim self) o ∧
    subnet_kernel_size self' = default (subnet_kernel_size self) k ∧
    subnet self' !! "weight" =
      Some (T4 (_subselect_weight (weight self) (subnet_in_dim self')
                  (subnet_out_dim self') (subnet_kernel_size self'))) ∧
    match bias self with
    | Some b =>
        subnet self' !! "bias" = Some (T1 (_subselect_bias b (subnet_out_dim self')))
    | None => subnet self' !! "bias" = subnet self !! "bias"
    end ∧
    weight self' = weight self ∧ bias self' = bias self ∧
    super_in_dim self' = super_in_dim self ∧
    super_out_dim self' = super_out_dim self ∧
    super_kernel_size self' = super_kernel_size self ∧
    stride self' = stride self ∧ padding self' = padding self.
Proof. apply set_subnet_config_effect. Qed.


(** C2. For a superkernel of maximal extent and a valid active
    configuration, the weight that [_subnet_parameters] materializes in
    [self.subnet["weight"]] is the prefix slice of the superkernel: its
    shape is (out, in, k, k), and its entry at (o, i, p, q) is the
    superkernel's entry at the same indices exactly when o < out,
    i < in, p < k and q < k (the slice starts at index 0 on every
    axis).  With a bias, [self.subnet["bias"]] is the first [out]
    entries of the bias. *)
Theorem active_weight_is_prefix_slice self :
  superkernel_shaped self →
  valid_config self →
  ∃ self' w,
    _subnet_parameters self = Ok self' ∧
    subnet self' !! "weight" = Some (T4 w) ∧
    has_shape4 w
      (Z.to_nat (subnet_out_dim self)) (Z.to_nat (subnet_in_dim self))
      (Z.to_nat (subnet_kernel_size self)) (Z.to_nat (subnet_kernel_size self)) ∧
    (∀ o i p q : nat,
       at4 w o i p q =
         if decide ((o < Z.to_nat (subnet_out_dim self))%nat ∧
                    (i < Z.to_nat (subnet_in_dim self))%nat ∧
                    (p < Z.to_nat (subnet_kernel_size self))%nat ∧
                    (q < Z.to_nat (subnet_kernel_size self))%nat)
         then at4 (weight self) o i p q else None) ∧
    match bias self with
    | Some b =>
        subnet self' !! "bias" = Some (T1 (take (Z.to_nat (subnet_out_dim self)) b)) ∧
        length (take (Z.to_nat (subnet_out_dim self)) b) =
          Z.to_nat (subnet_out_dim self)
    | None => True
    end.
Proof.
  intros [Hw Hb] (Hi & Ho & Hk).
  exists (materialized self),
    (_subselect_weight (weight self) (subnet_in_dim self)
       (subnet_out_dim self) (subnet_kernel_size self)).
  split; [apply _subnet_parameters_ok |].
  split; [apply materialized_weight_entry |].
  split.
  { pose proof (_subselect_weight_shape (weight self) _ _ _ _
      (subnet_in_dim self) (subnet_out_dim self) (subnet_kernel_size self)
      ltac:(lia) ltac:(lia) ltac:(lia) Hw) as Hs.
    by rewrite !Nat.min_l in Hs by lia. }
  split.
  { intros o i p q. apply _subselect_weight_at; lia. }
  rewrite materialized_bias_entry.
  destruct (bias self) as [b|]; [| done].
  unfold _subselect_bias. rewrite py_slice_stop_nonneg by lia.
  split; [done |]. rewrite length_take. lia.
Qed.



Section forward_claims.
Context {X : Type}.
Variable conv2d :
  X → tensor A → option (tensor A) → conv_stride → conv_padding → result X.

(** C9. [forward] is the convolution of the input with the sliced
    active weight, the operator's stride and its padding, and with no
    bias argument; its output is the same whatever bias parameter the
    operator holds. *)
Theorem SuperConv2D_forward_ignores_bias self (x : X) :
  SuperConv2D_forward conv2d self x =
    (conv_out ←
       conv2d x
         (T4 (_subselect_weight (weight self) (subnet_in_dim self)
                (subnet_out_dim self) (subnet_kernel_size self)))
         None (stride self) (padding self);
     Ok (conv_out, materialized self)) ∧
  ∀ (b : option (tensor1 A)) (element_size : Z),
    fst <$> SuperConv2D_forward conv2d (with_bias b element_size self) x =
    fst <$> SuperConv2D_forward conv2d self x.
Proof.
  assert (∀ s, SuperConv2D_forward conv2d s x =
    (conv_out ←
       conv2d x
         (T4 (_subselect_weight (weight s) (subnet_in_dim s)
                (subnet_out_dim s) (subnet_kernel_size s)))
         None (stride s) (padding s);
     Ok (conv_out, materialized s))) as Hfwd.
  { intros s. unfold SuperConv2D_forward.
    rewrite _subnet_parameters_ok. simpl.
    unfold dict_get. rewrite materialized_weight_entry.
    pose proof (materialized_fields s) as Hm. cbv zeta in Hm.
    destruct Hm as (_ & _ & _ & _ & _ & _ & _ & _ & _ & _ & -> & -> & _).
    done. }
  split; [apply Hfwd |].
  intros b sz. rewrite !Hfwd. simpl.
  by destruct (conv2d x _ None (stride self) (padding self)).
Qed.
End forward_claims.
End SuperConv2D_claims.

(** ** The elastic sequential container *)

Section SuperSequential_facts.
Context {X : Type}.
Implicit Types self : SuperSequential X.

Lemma for_loop_app {S T : Type} (body : S → T → result S) (xs ys : list T) (s : S) :
  for_loop body (xs ++ ys) s = (s' ← for_loop body xs s; for_loop body ys s').
Proof.
  revert s. induction xs as [|x xs IH]; intros s; simpl; [done |].
  destruct (body s x); simpl; [apply IH | done].
Qed.

Lemma SuperSequential_getitem_lookup self (i : nat) f :
  layers self !! i = Some f →
  SuperSequential_getitem self (Z.of_nat i) = Ok f.
Proof.
  intros Hf. pose proof (lookup_lt_Some _ _ _ Hf) as Hlt.
  unfold SuperSequential_getitem.
  rewrite bool_decide_eq_true_2 by lia.
  rewrite Z.mod_small by lia. by rewrite Nat2Z.id, Hf.
Qed.

Lemma SuperSequential_getitem_len self :
  SuperSequential_getitem self (Z.of_nat (length (layers self))) = Raise IndexError.
Proof.
  unfold SuperSequential_getitem.
  by rewrite bool_decide_eq_false_2 by lia.
Qed.

Lemma forward_loop_segment self (a m : nat) (x : X) :
  (a + m ≤ length (layers self))%nat →
  for_loop (fun x i => f ← SuperSequential_getitem self i; f x)
    ((fun i : nat => Z.of_nat i) <$> seq a m) x =
  run_layers (take m (drop a (layers self))) x.
Proof.
  revert a x. induction m as [|m IH]; intros a x Hlen; [done |].
  destruct (lookup_lt_is_Some_2 (layers self) a ltac:(lia)) as [f Hf].
  rewrite (drop_S _ _ _ Hf). simpl.
  rewrite (SuperSequential_getitem_lookup _ _ _ Hf), bind_Ok.
  unfold run_layers; simpl.
  destruct (f x) as [y|e]; simpl; [| done].
  apply IH. lia.
Qed.

Lemma forward_within_length self (x : X) :
  num_layers self ≤ Z.of_nat (length (layers self)) →
  SuperSequential_forward self x None =
    run_layers (take (Z.to_nat (num_layers self)) (layers self)) x.
Proof.
  intros Hn. unfold SuperSequential_forward, py_range.
  rewrite forward_loop_segment by lia. by rewrite drop_0.
Qed.

Lemma run_layers_total (fs : list (X → result X)) (x : X) :
  layers_total fs → ∃ y, run_layers fs x = Ok y.
Proof.
  revert x. induction fs as [|f fs IH]; intros x Ht; [by exists x |].
  unfold run_layers; simpl.
  destruct (f x) as [y|e] eqn:Hfx.
  - simpl. apply IH. intros g z Hg. apply Ht. by right.
  - exfalso. apply (Ht f x); [by left |]. by rewrite Hfx.
Qed.

Lemma forward_beyond_length self (x : X) :
  layers_total (layers self) →
  Z.of_nat (length (layers self)) < num_layers self →
  SuperSequential_forward self x None = Raise IndexError.
Proof.
  intros Ht Hn. unfold SuperSequential_forward, py_range.
  set (len := length (layers self)).
  replace (Z.to_nat (num_layers self))
    with (len + S (Z.to_nat (num_layers self) - S len))%nat by lia.
  rewrite seq_app, fmap_app, for_loop_app.
  rewrite forward_loop_segment by (subst len; lia).
  subst len. rewrite drop_0, firstn_all.
  destruct (run_layers_total (layers self) x Ht) as [y ->].
  rewrite bind_Ok. simpl.
  by rewrite SuperSequential_getitem_len.
Qed.
End SuperSequential_facts.

Section SuperSequential_claims.
Context {X : Type}.
Implicit Types self : SuperSequential X.

(** C5. With an active depth d between 0 and the number of
    sub-operators, [forward] runs the first d sub-operators in order,
    the output of each feeding the next.  With depth 0 it returns its
    input; with five sub-operators and depth 2 it is the second
    sub-operator applied to the result of the first. *)
Theorem SuperSequential_forward_runs_prefix self (x : X) :
  0 ≤ num_layers self ≤ Z.of_nat (length (layers self)) →
  SuperSequential_forward self x None =
    run_layers (take (Z.to_nat (num_layers self)) (layers self)) x ∧
  (∀ fs : list (X → result X),
     SuperSequential_forward (mkSuperSequential fs 0) x None = Ok x) ∧
  (∀ f0 f1 f2 f3 f4 : X → result X,
     (s ← set_num_layers 2 (SuperSequential_init [f0; f1; f2; f3; f4]);
      SuperSequential_forward s x None) = (y ← f0 x; f1 y)).
Proof.
  intros [H0 Hlen]. split; [by apply forward_within_length |].
  split.
  - intros fs. by rewrite forward_within_length by (simpl; lia).
  - intros. unfold set_num_layers. rewrite bind_Ok.
    rewrite forward_within_length by (simpl; lia).
    unfold run_layers; simpl.
    destruct (f0 x) as [y|]; simpl; [| done]. by destruct (f1 y).
Qed.

(** C6, as the code has it.  [set_num_layers] has no precondition: for
    every integer [n], negative or above the number of sub-operators
    included, it returns normally and stores [n] as the active depth;
    the sub-operators are not touched. *)
Theorem set_num_layers_stores_unchecked (n : Z) self :
  ∃ self',
    set_num_layers n self = Ok self' ∧
    num_layers self' = n ∧
    layers self' = layers self.
Proof. by exists (mkSuperSequential (layers self) n). Qed.

Lemma forward_beyond_length_run self (x : X) :
  Z.of_nat (length (layers self)) < num_layers self →
  SuperSequential_forward self x None =
    (y ← run_layers (layers self) x; Raise IndexError).
Proof.
  intros Hn. unfold SuperSequential_forward, py_range.
  set (len := length (layers self)).
  replace (Z.to_nat (num_layers self))
    with (len + S (Z.to_nat (num_layers self) - S len))%nat by lia.
  rewrite seq_app, fmap_app, for_loop_app.
  rewrite forward_loop_segment by (subst len; lia).
  subst len. rewrite drop_0, firstn_all.
  destruct (run_layers (layers self) x) as [y|e]; [| done].
  rewrite !bind_Ok. simpl.
  by rewrite SuperSequential_getitem_len.
Qed.

(** C10. For every container, [set_num_layers] accepts a negative
    depth, and [forward] then returns its input.  [forward] raises
    exactly when a sub-operator within the stored depth raises or the
    stored depth exceeds the number of sub-operators: up to the length
    it is the run of the first sub-operators, beyond the length it runs
    all of them and then raises the index error of [self[i]].  So when
    no sub-operator raises, [forward] raises exactly when the stored
    depth exceeds the length, and what it raises is that index error. *)
Theorem negative_num_layers_is_identity (n : Z) self (x : X) :
  (n < 0 →
   ∃ self',
     set_num_layers n self = Ok self' ∧
     num_layers self' = n ∧
     SuperSequential_forward self' x None = Ok x) ∧
  (raises (SuperSequential_forward self x None) ↔
     raises (run_layers (take (Z.to_nat (num_layers self)) (layers self)) x) ∨
     Z.of_nat (length (layers self)) < num_layers self) ∧
  SuperSequential_forward self x None =
    (if decide (Z.of_nat (length (layers self)) < num_layers self)
     then y ← run_layers (layers self) x; Raise IndexError
     else run_layers (take (Z.to_nat (num_layers self)) (layers self)) x) ∧
  (layers_total (layers self) →
   (raises (SuperSequential_forward self x None) ↔
      Z.of_nat (length (layers self)) < num_layers self) ∧
   SuperSequential_forward self x None =
     if decide (Z.of_nat (length (layers self)) < num_layers self)
     then Raise IndexError
     else run_layers (take (Z.to_nat (num_layers self)) (layers self)) x).
Proof.
  assert (SuperSequential_forward self x None =
    (if decide (Z.of_nat (length (layers self)) < num_layers self)
     then y ← run_layers (layers self) x; Raise IndexError
     else run_layers (take (Z.to_nat (num_layers self)) (layers self)) x)) as Hfwd.
  { case_decide.
    - by apply forward_beyond_length_run.
    - apply forward_within_length. lia. }
  split; [| split; [| split; [exact Hfwd |]]].
  - intros Hn. exists (mkSuperSequential (layers self) n).
    do 2 (split; [done |]).
    rewrite forward_within_length by (simpl; lia). simpl.
    by replace (Z.to_nat n) with 0%nat by lia.
  - rewrite Hfwd. case_decide as Hlen.
    + split; [by right |]. intros _.
      by destruct (run_layers (layers self) x).
    + split; [by left |]. by intros [?|?].
  - intros Ht. split.
    + split.
      * intros Hr.
        destruct (decide (Z.of_nat (length (layers self)) < num_layers self))
          as [|Hle]; [done |].
        rewrite forward_within_length in Hr by lia.
        destruct (run_layers_total
          (take (Z.to_nat (num_layers self)) (layers self)) x) as [y Hy].
        { intros f y Hf. apply Ht. by eapply subseteq_take. }
        by rewrite Hy in Hr.
      * intros Hgt. by rewrite forward_beyond_length.
    + case_decide.
      * by apply forward_beyond_length.
      * apply forward_within_length. lia.
Qed.
End SuperSequential_claims.

(** ** The traversal *)

Section nn_module_induction.
Variable P : nn_module → Prop.
Hypothesis IH_node : ∀ id children, Forall P children → P (Node id children).

Fixpoint nn_module_ind (m : nn_module) : P m :=
  match m with
  | Node id children =>
      IH_node id children
        ((fix all (cs : list nn_module) : Forall P cs :=
            match cs with
            | [] => List.Forall_nil P
            | c :: cs' => List.Forall_cons P c cs' (nn_module_ind c) (all cs')
            end) children)
  end.
End nn_module_induction.

Lemma named_modules_Node (id : nat) (children : list nn_module) (memo : gset nat) :
  named_modules (Node id children) memo =
    if decide (id ∈ memo) then ([], memo)
    else
      let '(ys, memo') := named_modules_children children ({[id]} ∪ memo) in
      (id :: ys, memo').
Proof.
  simpl. case_decide; [done |].
  generalize ({[id]} ∪ memo) as memo1.
  induction children as [|c cs IH]; intros memo1; simpl; [done |].
  destruct (named_modules c memo1) as [ys memo2].
  specialize (IH memo2).
  match goal with
  | |- (let '(_, _) := let '(_, _) := ?w in _ in _) = _ => destruct w as [zs memo3]
  end.
  destruct (named_modules_children cs memo2) as [zs' memo3'].
  by inversion IH.
Qed.

Lemma named_modules_invariant (m : nn_module) (memo : gset nat) :
  walk_invariant memo (named_modules m memo).
Proof.
  revert memo. induction m as [id children IH] using nn_module_ind. intros memo.
  rewrite named_modules_Node. case_decide as Hin.
  { split; [constructor |]. split; [intros y Hy; by apply elem_of_nil in Hy |]. simpl. set_solver. }
  assert (∀ memo1, walk_invariant memo1 (named_modules_children children memo1))
    as Hchildren.
  { clear Hin memo. induction IH as [|c cs Hc _ IHcs]; intros memo1.
    - split; [constructor |]. split; [intros y Hy; by apply elem_of_nil in Hy |]. simpl. set_solver.
    - simpl. specialize (Hc memo1).
      destruct (named_modules c memo1) as [ys memo2].
      specialize (IHcs memo2).
      destruct (named_modules_children cs memo2) as [zs memo3].
      destruct Hc as (N1 & D1 & E1), IHcs as (N2 & D2 & E2). simpl in *.
      split; [| split].
      + apply NoDup_app. split; [done |]. split; [| done].
        intros y Hy1 Hy2. apply (D2 y Hy2). rewrite E1.
        apply elem_of_union_r, elem_of_list_to_set, Hy1.
      + intros y [Hy|Hy]%elem_of_app; [by apply D1 |].
        intros Hm. apply (D2 y Hy). rewrite E1. by apply elem_of_union_l.
      + rewrite E2, E1. set_solver. }
  specialize (Hchildren ({[id]} ∪ memo)).
  destruct (named_modules_children children ({[id]} ∪ memo)) as [ys memo'].
  destruct Hchildren as (N & D & E). simpl in *.
  split; [| split]; simpl.
  - constructor; [| done]. intros Hy. apply (D id Hy). set_solver.
  - intros y [->|Hy]%elem_of_cons; [done |].
    intros Hm. apply (D y Hy). set_solver.
  - rewrite E. set_solver.
Qed.

Lemma modules_NoDup (self : nn_module) : NoDup (modules self).
Proof. apply (named_modules_invariant self ∅). Qed.

(** ** Loops over the discovered operators *)

Lemma py_zip_nil_r {S T : Type} (xs : list S) : py_zip xs (@nil T) = [].
Proof. by destruct xs. Qed.

Lemma py_zip_take_l {S T : Type} (xs : list S) (ys : list T) :
  py_zip (take (length ys) xs) ys = py_zip xs ys.
Proof.
  revert xs. induction ys as [|y ys IH]; intros [|x xs]; simpl; try done.
  by rewrite IH.
Qed.

Lemma comprehension_lookup {U T : Type} (f : U → result T) (xs : list U) (ys : list T) :
  length ys = length xs →
  (∀ j x y, xs !! j = Some x → ys !! j = Some y → f x = Ok y) →
  comprehension f xs = Ok ys.
Proof.
  revert ys. induction xs as [|x xs IH]; intros [|y ys] Hlen Hf; simpl in *; try done.
  rewrite (Hf 0%nat x y eq_refl eq_refl), bind_Ok.
  rewrite (IH ys), bind_Ok; [done | lia |].
  intros j x' y' Hx Hy. by apply (Hf (S j)).
Qed.

Section heap_loop.
Context {A X : Type}.
Implicit Types h : gmap nat (object A X).

Lemma same_types_refl h : same_types h h.
Proof. by intros id. Qed.

Lemma same_types_trans h1 h2 h3 :
  same_types h1 h2 → same_types h2 h3 → same_types h1 h3.
Proof.
  intros H12 H23 id. destruct (H12 id), (H23 id). split; congruence.
Qed.

Lemma get_super_ops_same_types (self : nn_module) h h' :
  same_types h h' → get_super_ops self h' = get_super_ops self h.
Proof.
  intros Hs. unfold get_super_ops.
  apply list_filter_iff. intros id. by destruct (Hs id) as [-> _].
Qed.

Lemma get_super_sequential_ops_same_types (self : nn_module) h h' :
  same_types h h' →
  get_super_sequential_ops self h' = get_super_sequential_ops self h.
Proof.
  intros Hs. unfold get_super_sequential_ops.
  apply list_filter_iff. intros id. by destruct (Hs id) as [_ ->].
Qed.

(** One pass [for v, op in zip(vs, ops): op.method(v)] over distinct
    objects, for a method [call] that replaces the object it is called
    on by one of the same type, after which [read] returns the value
    passed. *)
Variable call : nat → Z → gmap nat (object A X) → result (gmap nat (object A X)).
Variable good : gmap nat (object A X) → nat → Prop.
Variable read : gmap nat (object A X) → nat → result Z.

Hypothesis call_spec : ∀ id v h,
  good h id →
  ∃ o', call id v h = Ok (<[id := o']> h) ∧
        read (<[id := o']> h) id = Ok v ∧
        same_types h (<[id := o']> h).
Hypothesis good_same_types : ∀ h h' id, same_types h h' → good h id → good h' id.
Hypothesis read_local : ∀ h h' id, h !! id = h' !! id → read h id = read h' id.

Lemma for_loop_zip_heap (vs : list Z) (ids : list nat) h :
  NoDup ids →
  Forall (good h) ids →
  ∃ h',
    for_loop (fun h '(v, id) => call id v h) (py_zip vs ids) h = Ok h' ∧
    same_types h h' ∧
    (∀ j id v, ids !! j = Some id → vs !! j = Some v → read h' id = Ok v) ∧
    (∀ id, id ∉ take (length vs) ids → h' !! id = h !! id).
Proof using call_spec good_same_types read_local.
  revert vs h. induction ids as [|id ids IH]; intros vs h Hnd Hgood.
  { exists h. rewrite py_zip_nil_r. split; [done |].
    split; [apply same_types_refl |]. split; [| done].
    intros j id v Hj. by rewrite lookup_nil in Hj. }
  destruct vs as [|v vs].
  { exists h. split; [done |]. split; [apply same_types_refl |].
    split; [| done]. intros j id' v' _ Hv. by rewrite lookup_nil in Hv. }
  apply NoDup_cons in Hnd as [Hnotin Hnd].
  apply Forall_cons in Hgood as [Hid Hgood].
  destruct (call_spec id v h Hid) as (o' & Hcall & Hread & Hsame).
  destruct (IH vs (<[id := o']> h) Hnd) as (h' & Hloop & Hsame' & Hpaired & Hrest).
  { eapply Forall_impl; [exact Hgood |]. intros id'. by apply good_same_types. }
  exists h'. simpl. rewrite Hcall, bind_Ok.
  split; [exact Hloop |]. split; [by eapply same_types_trans |]. split.
  - intros [|j] id' v' Hj Hv; simpl in *.
    + injection Hj as <-. injection Hv as <-.
      rewrite <- Hread. apply read_local, Hrest.
      intros Hin. apply Hnotin. by eapply subseteq_take.
    + by eapply Hpaired.
  - intros id' Hid'. apply not_elem_of_cons in Hid' as [Hne Hid'].
    rewrite (Hrest id' Hid'). by apply lookup_insert_ne.
Qed.
End heap_loop.

(** ** The configuration protocol *)

Section Network_facts.
Context {A X : Type}.
Implicit Types h : gmap nat (object A X).

Lemma is_SuperConv2D_not_sequential h id :
  is_SuperConv2D h id → ¬ is_SuperSequential h id.
Proof.
  unfold is_SuperConv2D, is_SuperSequential.
  destruct (h !! id) as [[| |]|]; simpl; tauto.
Qed.

Lemma elem_of_get_super_ops (self : nn_module) h id :
  id ∈ get_super_ops self h → is_SuperConv2D h id.
Proof. unfold get_super_ops. by intros [? _]%list_elem_of_filter. Qed.

Lemma elem_of_get_super_sequential_ops (self : nn_module) h id :
  id ∈ get_super_sequential_ops self h → is_SuperSequential h id.
Proof. unfold get_super_sequential_ops. by intros [? _]%list_elem_of_filter. Qed.

Lemma get_super_ops_NoDup (self : nn_module) h : NoDup (get_super_ops self h).
Proof. apply NoDup_filter, modules_NoDup. Qed.

Lemma get_super_sequential_ops_NoDup (self : nn_module) h :
  NoDup (get_super_sequential_ops self h).
Proof. apply NoDup_filter, modules_NoDup. Qed.

Lemma same_types_insert_conv h id (c c' : SuperConv2D A) :
  h !! id = Some (ObjSuperConv2D c) →
  same_types h (<[id := ObjSuperConv2D c']> h).
Proof.
  intros Hid id'. unfold is_SuperConv2D, is_SuperSequential.
  destruct (decide (id = id')) as [<-|Hne].
  - by rewrite lookup_insert_eq, Hid.
  - by rewrite lookup_insert_ne.
Qed.

Lemma same_types_insert_seq h id (s s' : SuperSequential X) :
  h !! id = Some (ObjSuperSequential s) →
  same_types h (<[id := ObjSuperSequential s']> h).
Proof.
  intros Hid id'. unfold is_SuperConv2D, is_SuperSequential.
  destruct (decide (id = id')) as [<-|Hne].
  - by rewrite lookup_insert_eq, Hid.
  - by rewrite lookup_insert_ne.
Qed.

Lemma call_set_subnet_config_spec id (v : Z) h :
  is_SuperConv2D h id →
  ∃ o', call_set_subnet_config id v h = Ok (<[id := o']> h) ∧
        read_subnet_kernel_size (<[id := o']> h) id = Ok v ∧
        same_types h (<[id := o']> h).
Proof.
  unfold is_SuperConv2D, call_set_subnet_config, read_subnet_kernel_size.
  destruct (h !! id) as [[c| |]|] eqn:Hid; try done. intros _.
  exists (ObjSuperConv2D (materialized (configured None None (Some v) c))).
  rewrite set_subnet_config_ok, bind_Ok, lookup_insert_eq.
  split; [done |]. split; [| by eapply same_types_insert_conv].
  f_equal. unfold materialized; simpl. by destruct (bias c).
Qed.

Lemma call_set_num_layers_spec id (v : Z) h :
  is_SuperSequential h id →
  ∃ o', call_set_num_layers id v h = Ok (<[id := o']> h) ∧
        read_num_layers (<[id := o']> h) id = Ok v ∧
        same_types h (<[id := o']> h).
Proof.
  unfold is_SuperSequential, call_set_num_layers, read_num_layers.
  destruct (h !! id) as [[|s|]|] eqn:Hid; try done. intros _.
  exists (ObjSuperSequential (mkSuperSequential (layers s) v)).
  unfold set_num_layers. rewrite bind_Ok, lookup_insert_eq.
  split; [done |]. split; [done | by eapply same_types_insert_seq].
Qed.

Lemma is_SuperConv2D_same_types h h' id :
  same_types h h' → is_SuperConv2D h id → is_SuperConv2D h' id.
Proof. intros Hs. by destruct (Hs id) as [-> _]. Qed.

Lemma is_SuperSequential_same_types h h' id :
  same_types h h' → is_SuperSequential h id → is_SuperSequential h' id.
Proof. intros Hs. by destruct (Hs id) as [_ ->]. Qed.

Lemma read_subnet_kernel_size_local h h' id :
  h !! id = h' !! id → read_subnet_kernel_size h id = read_subnet_kernel_size h' id.
Proof. unfold read_subnet_kernel_size. by intros ->. Qed.

Lemma read_num_layers_local h h' id :
  h !! id = h' !! id → read_num_layers h id = read_num_layers h' id.
Proof. unfold read_num_layers. by intros ->. Qed.

(** The whole effect of [set_config]. *)
Lemma set_config_effect (config : gmap string (list Z)) (self : nn_module) h
    (ks nl : list Z) :
  config !! "ks" = Some ks →
  config !! "num_layers" = Some nl →
  ∃ h',
    set_config config self h = Ok h' ∧
    same_types h h' ∧
    (∀ j id k, get_super_ops self h !! j = Some id → ks !! j = Some k →
               read_subnet_kernel_size h' id = Ok k) ∧
    (∀ j id n, get_super_sequential_ops self h !! j = Some id → nl !! j = Some n →
               read_num_layers h' id = Ok n) ∧
    (∀ id, id ∉ take (length ks) (get_super_ops self h) →
           id ∉ take (length nl) (get_super_sequential_ops self h) →
           h' !! id = h !! id).
Proof.
  intros Hks Hnl. unfold set_config, dict_get. rewrite Hks, Hnl, bind_Ok.
  destruct (for_loop_zip_heap call_set_subnet_config
              (fun h id => is_SuperConv2D h id) read_subnet_kernel_size
              call_set_subnet_config_spec is_SuperConv2D_same_types
              read_subnet_kernel_size_local
              ks (get_super_ops self h) h)
    as (h1 & Hloop1 & Hsame1 & Hpaired1 & Hrest1).
  { apply get_super_ops_NoDup. }
  { apply Forall_forall. intros id. apply elem_of_get_super_ops. }
  rewrite Hloop1, !bind_Ok.
  rewrite (get_super_sequential_ops_same_types self h h1 Hsame1).
  destruct (for_loop_zip_heap call_set_num_layers
              (fun h id => is_SuperSequential h id) read_num_layers
              call_set_num_layers_spec is_SuperSequential_same_types
              read_num_layers_local
              nl (get_super_sequential_ops self h) h1)
    as (h2 & Hloop2 & Hsame2 & Hpaired2 & Hrest2).
  { apply get_super_sequential_ops_NoDup. }
  { apply Forall_forall. intros id Hid.
    eapply is_SuperSequential_same_types; [exact Hsame1 |].
    by eapply elem_of_get_super_sequential_ops. }
  exists h2. split; [exact Hloop2 |].
  split; [by eapply same_types_trans |].
  split; [| split].
  - intros j id k Hj Hk.
    rewrite <- (Hpaired1 j id k Hj Hk).
    apply read_subnet_kernel_size_local, Hrest2.
    intros Hin%subseteq_take%elem_of_get_super_sequential_ops.
    eapply is_SuperConv2D_not_sequential; [| exact Hin].
    eapply elem_of_get_super_ops, list_elem_of_lookup_2, Hj.
  - exact Hpaired2.
  - intros id Hid1 Hid2. rewrite (Hrest2 id Hid2). by apply Hrest1.
Qed.
End Network_facts.

Section Network_claims.
Context {A X : Type}.
Implicit Types h : gmap nat (object A X).

(** Values beyond the number of discovered operators play no role. *)
Lemma set_config_take (config : gmap string (list Z)) (self : nn_module) h
    (ks nl : list Z) :
  config !! "ks" = Some ks →
  config !! "num_layers" = Some nl →
  set_config
    (<["ks" := take (length (get_super_ops self h)) ks]>
       (<["num_layers" := take (length (get_super_sequential_ops self h)) nl]>
          config))
    self h =
  set_config config self h.
Proof.
  intros Hks Hnl. unfold set_config, dict_get.
  rewrite lookup_insert_eq, lookup_insert_ne, lookup_insert_eq by done.
  rewrite Hks, Hnl, !bind_Ok, py_zip_take_l.
  destruct (for_loop_zip_heap call_set_subnet_config
              (fun h id => is_SuperConv2D h id) read_subnet_kernel_size
              call_set_subnet_config_spec is_SuperConv2D_same_types
              read_subnet_kernel_size_local
              ks (get_super_ops self h) h)
    as (h1 & -> & Hsame1 & _).
  { apply get_super_ops_NoDup. }
  { apply Forall_forall. intros id. apply elem_of_get_super_ops. }
  rewrite !bind_Ok.
  rewrite <- (get_super_sequential_ops_same_types self h h1 Hsame1).
  by rewrite py_zip_take_l.
Qed.

(** C3. When the applied lists are as long as the lists of discovered
    elastic convolutions and elastic containers, [set_config] returns
    normally and [get_config] then returns a dictionary whose ["ks"]
    and ["num_layers"] entries are exactly the applied lists.  Both
    calls enumerate the same operators in the same order. *)
Theorem set_config_get_config_round_trip (config : gmap string (list Z))
    (self : nn_module) h (ks nl : list Z) :
  config !! "ks" = Some ks →
  config !! "num_layers" = Some nl →
  length ks = length (get_super_ops self h) →
  length nl = length (get_super_sequential_ops self h) →
  ∃ h' config',
    set_config config self h = Ok h' ∧
    get_super_ops self h' = get_super_ops self h ∧
    get_super_sequential_ops self h' = get_super_sequential_ops self h ∧
    get_config self h' = Ok config' ∧
    config' !! "ks" = Some ks ∧
    config' !! "num_layers" = Some nl.
Proof.
  intros Hks Hnl Hlen_ks Hlen_nl.
  destruct (set_config_effect config self h ks nl Hks Hnl)
    as (h' & Hset & Hsame & Hconv & Hseq & _).
  exists h', (<["num_layers" := nl]> (<["ks" := ks]> ∅)).
  split; [exact Hset |].
  split; [by apply get_super_ops_same_types |].
  split; [by apply get_super_sequential_ops_same_types |].
  split.
  - unfold get_config.
    rewrite (get_super_ops_same_types self h h' Hsame).
    rewrite (get_super_sequential_ops_same_types self h h' Hsame).
    rewrite (comprehension_lookup _ _ ks Hlen_ks Hconv), bind_Ok.
    by rewrite (comprehension_lookup _ _ nl Hlen_nl Hseq), bind_Ok.
  - split.
    + by rewrite lookup_insert_ne, lookup_insert_eq.
    + by rewrite lookup_insert_eq.
Qed.

(** C8. Whatever the lengths of the two lists, [set_config] returns
    normally.  The j-th value is given to the j-th discovered operator
    as long as both exist; an operator beyond the end of its list keeps
    its whole state; and values beyond the number of operators are
    dropped: the call does what it does on the lists cut to the number
    of operators. *)
Theorem set_config_stops_at_shorter_list (config : gmap string (list Z))
    (self : nn_module) h (ks nl : list Z) :
  config !! "ks" = Some ks →
  config !! "num_layers" = Some nl →
  ∃ h',
    set_config config self h = Ok h' ∧
    (∀ j id k, get_super_ops self h !! j = Some id → ks !! j = Some k →
               read_subnet_kernel_size h' id = Ok k) ∧
    (∀ j id n, get_super_sequential_ops self h !! j = Some id → nl !! j = Some n →
               read_num_layers h' id = Ok n) ∧
    (∀ j id, get_super_ops self h !! j = Some id → (length ks ≤ j)%nat →
             h' !! id = h !! id) ∧
    (∀ j id, get_super_sequential_ops self h !! j = Some id → (length nl ≤ j)%nat →
             h' !! id = h !! id) ∧
    set_config
      (<["ks" := take (length (get_super_ops self h)) ks]>
         (<["num_layers" := take (length (get_super_sequential_ops self h)) nl]>
            config))
      self h = Ok h'.
Proof.
  intros Hks Hnl.
  destruct (set_config_effect config self h ks nl Hks Hnl)
    as (h' & Hset & Hsame & Hconv & Hseq & Hrest).
  exists h'. split; [exact Hset |].
  split; [exact Hconv |]. split; [exact Hseq |].
  split; [| split].
  - intros j id Hj Hge. apply Hrest.
    + intros (i & Hi & Hlt)%elem_of_take.
      pose proof (NoDup_lookup _ _ _ _ (get_super_ops_NoDup self h) Hi Hj). lia.
    + intros Hin%subseteq_take%elem_of_get_super_sequential_ops.
      eapply is_SuperConv2D_not_sequential; [| exact Hin].
      eapply elem_of_get_super_ops, list_elem_of_lookup_2, Hj.
  - intros j id Hj Hge. apply Hrest.
    + intros Hin%subseteq_take%elem_of_get_super_ops.
      eapply is_SuperConv2D_not_sequential; [exact Hin |].
      eapply elem_of_get_super_sequential_ops, list_elem_of_lookup_2, Hj.
    + intros (i & Hi & Hlt)%elem_of_take.
      pose proof (NoDup_lookup _ _ _ _
        (get_super_sequential_ops_NoDup self h) Hi Hj). lia.
  - by rewrite set_config_take.
Qed.
End Network_claims.

(** ** The properties at concrete operators *)

Lemma conv_small_shaped : superkernel_shaped conv_small.
Proof. unfold superkernel_shaped, has_shape4; simpl. repeat constructor. Qed.

Lemma conv_small_valid : valid_config conv_small.
Proof. unfold valid_config; simpl. lia. Qed.

Lemma seq5_layers_total : layers_total (layers seq5).
Proof.
  intros f y Hf. simpl in Hf.
  repeat (apply elem_of_cons in Hf as [->|Hf]; [simpl; tauto |]).
  by apply elem_of_nil in Hf.
Qed.



Lemma active_weight_is_prefix_slice_witness :
  ∃ self' w,
    _subnet_parameters conv_small = Ok self' ∧
    subnet self' !! "weight" = Some (T4 w) ∧
    has_shape4 w 2 1 1 1 ∧
    (∀ o i p q : nat,
       at4 w o i p q =
         if decide ((o < 2)%nat ∧ (i < 1)%nat ∧ (p < 1)%nat ∧ (q < 1)%nat)
         then at4 (weight conv_small) o i p q else None) ∧
    subnet self' !! "bias" = Some (T1 [100; 200]) ∧
    length (take 2 [100; 200; 300]) = 2%nat.
Proof.
  apply (active_weight_is_prefix_slice conv_small).
  - exact conv_small_shaped.
  - exact conv_small_valid.
Defined.



Lemma SuperSequential_forward_runs_prefix_witness :
  SuperSequential_forward (mkSuperSequential (layers seq5) 2) 10 None =
    run_layers (take 2 (layers seq5)) 10.
Proof.
  apply (SuperSequential_forward_runs_prefix (mkSuperSequential (layers seq5) 2) 10).
  simpl; lia.
Defined.

(** On a container of five sub-operators [set_num_layers] accepts the
    depths -1 and 6. *)
Lemma set_num_layers_out_of_range_accepted :
  length (layers seq5) = 5%nat ∧
  set_num_layers (-1) seq5 = Ok (mkSuperSequential (layers seq5) (-1)) ∧
  set_num_layers 6 seq5 = Ok (mkSuperSequential (layers seq5) 6) ∧
  ¬ raises (set_num_layers (-1) seq5) ∧
  ¬ raises (set_num_layers 6 seq5).
Proof. repeat split; simpl; tauto. Qed.

Lemma negative_num_layers_is_identity_witness :
  (∃ self',
     set_num_layers (-1) seq5 = Ok self' ∧
     num_layers self' = -1 ∧
     SuperSequential_forward self' 10 None = Ok 10) ∧
  (raises (SuperSequential_forward seq5 10 None) ↔ 5 < 5).
Proof.
  pose proof (negative_num_layers_is_identity (-1) seq5 10) as (H1 & _ & _ & H4).
  split; [apply H1; lia |].
  apply (H4 seq5_layers_total).
Defined.

Lemma set_config_get_config_round_trip_witness :
  ∃ h' config',
    set_config (<["ks" := [1; 2]]> (<["num_layers" := [3]]> ∅)) net_small heap_small
      = Ok h' ∧
    get_super_ops net_small h' = get_super_ops net_small heap_small ∧
    get_super_sequential_ops net_small h' =
      get_super_sequential_ops net_small heap_small ∧
    get_config net_small h' = Ok config' ∧
    config' !! "ks" = Some [1; 2] ∧
    config' !! "num_layers" = Some [3].
Proof.
  apply (set_config_get_config_round_trip
           (<["ks" := [1; 2]]> (<["num_layers" := [3]]> ∅)) net_small heap_small).
  - reflexivity.
  - reflexivity.
  - vm_compute; reflexivity.
  - vm_compute; reflexivity.
Defined.

Lemma set_config_stops_at_shorter_list_witness :
  ∃ h',
    set_config (<["ks" := [1]]> (<["num_layers" := [3; 4; 5]]> ∅)) net_small heap_small
      = Ok h' ∧
    read_subnet_kernel_size h' 1%nat = Ok 1 ∧
    read_num_layers h' 2%nat = Ok 3 ∧
    h' !! 3%nat = heap_small !! 3%nat.
Proof.
  destruct (set_config_stops_at_shorter_list
              (<["ks" := [1]]> (<["num_layers" := [3; 4; 5]]> ∅))
              net_small heap_small [1] [3; 4; 5])
    as (h' & Hset & Hconv & Hseq & Hrest & _);
    [vm_compute; reflexivity | vm_compute; reflexivity |].
  exists h'. split; [exact Hset |].
  split; [apply (Hconv 0%nat); vm_compute; reflexivity |].
  split; [apply (Hseq 0%nat); vm_compute; reflexivity |].
  apply (Hrest 1%nat); [vm_compute; reflexivity | simpl; lia].
Defined.

(** ** The embedding on small inputs *)

Example py_slice_stop_negative : py_slice_stop (-1) [1; 2; 3] = [1; 2].
Proof. reflexivity. Qed.

Example py_slice_stop_beyond : py_slice_stop 7 [1; 2; 3] = [1; 2; 3].
Proof. reflexivity. Qed.

Example modules_net_small : modules net_small = [0; 1; 2; 3]%nat.
Proof. vm_compute; reflexivity. Qed.

Example get_super_ops_net_small : get_super_ops net_small heap_small = [1; 3]%nat.
Proof. vm_compute; reflexivity. Qed.

Example get_super_sequential_ops_net_small :
  get_super_sequential_ops net_small heap_small = [2]%nat.
Proof. vm_compute; reflexivity. Qed.

Example seq5_depth_2 :
  SuperSequential_forward seq5 10 (Some 2) = Ok 22.
Proof. reflexivity. Qed.

Example seq5_depth_6 :
  SuperSequential_forward seq5 10 (Some 6) = Raise IndexError.
Proof. reflexivity. Qed.

Example conv_small_slice :
  _subselect_weight (weight conv_small) 1 2 1 = [ [ [[1]] ]; [ [[9]] ] ].
Proof. reflexivity. Qed.

Example conv_small_oversized_slice :
  _subselect_weight (weight conv_small) 1 64 1 = [ [ [[1]] ]; [ [[9]] ]; [ [[17]] ] ].
Proof. reflexivity. Qed.

(** * Further properties of the code

    The rest of this file covers behaviour of the same source file that
    the properties above leave out: more of the elastic convolution and
    of the elastic container, the traversal and the configuration
    protocol on their error and frame behaviour, the parameter count
    [get_parameters], and the argument checks of the network
    constructor and of [load_weights]. *)

(** ** More on the elastic convolution *)

(** [t.numel()] of a rank-4 tensor: the number of its elements. *)
Definition numel4 {A : Type} (t : tensor4 A) : Z :=
  Z.of_nat
    (sum_list
       ((fun t1 : list (list (list A)) =>
           sum_list
             ((fun t2 : list (list A) => sum_list (length <$> t2)) <$> t1))
          <$> t)).

(** The number of elements of [l[:stop]] for a list of [len] elements. *)
Definition py_slice_extent (stop : Z) (len : nat) : nat :=
  if 0 <=? stop then (Z.to_nat stop `min` len)%nat
  else Z.to_nat (Z.of_nat len + stop).

(** The argument that a later call supplies, or else the one that an
    earlier call supplied. *)
Definition later_or (later earlier : option Z) : option Z :=
  match later with
  | Some v => Some v
  | None => earlier
  end.

Section SuperConv2D_more.
Context {A : Type}.
Implicit Types self : SuperConv2D A.

Lemma py_slice_stop_length_any {T : Type} (n : Z) (l : list T) :
  length (py_slice_stop n l) = py_slice_extent n (length l).
Proof.
  unfold py_slice_stop, py_slice_extent.
  destruct (0 <=? n) eqn:E; rewrite length_take; [done | lia].
Qed.

Lemma _subselect_weight_shape_any (w : tensor4 A) (d0 d1 d2 d3 : nat) (i o k : Z) :
  has_shape4 w d0 d1 d2 d3 →
  has_shape4 (_subselect_weight w i o k)
    (py_slice_extent o d0) (py_slice_extent i d1)
    (py_slice_extent k d2) (py_slice_extent k d3).
Proof.
  intros [H0 H1]. unfold _subselect_weight. split.
  { by rewrite length_fmap, py_slice_stop_length_any, H0. }
  apply Forall_fmap, py_slice_stop_Forall.
  eapply Forall_impl; [exact H1 |]. intros w1 [L1 F1]; unfold compose. split.
  { by rewrite length_fmap, py_slice_stop_length_any, L1. }
  apply Forall_fmap, py_slice_stop_Forall.
  eapply Forall_impl; [exact F1 |]. intros w2 [L2 F2]; unfold compose. split.
  { by rewrite length_fmap, py_slice_stop_length_any, L2. }
  apply Forall_fmap, py_slice_stop_Forall.
  eapply Forall_impl; [exact F2 |]. intros w3 L3; unfold compose; cbv beta in L3.
  by rewrite py_slice_stop_length_any, L3.
Qed.

Lemma sum_list_fmap_const {B : Type} (f : B → nat) (c : nat) (l : list B) :
  Forall (fun x => f x = c) l → sum_list (f <$> l) = (length l * c)%nat.
Proof.
  induction 1 as [|x l Hx _ IH]; csimpl; [done |]. rewrite IH, Hx. lia.
Qed.

Lemma numel4_shape (w : tensor4 A) (d0 d1 d2 d3 : nat) :
  has_shape4 w d0 d1 d2 d3 →
  numel4 w = Z.of_nat d0 * Z.of_nat d1 * Z.of_nat d2 * Z.of_nat d3.
Proof.
  intros [H0 H1]. unfold numel4.
  rewrite (sum_list_fmap_const _ (d1 * (d2 * d3))%nat); [subst d0; lia |].
  eapply Forall_impl; [exact H1 |]. intros t1 [L1 F1]; cbv beta.
  rewrite (sum_list_fmap_const _ (d2 * d3)%nat); [by rewrite L1 |].
  eapply Forall_impl; [exact F1 |]. intros t2 [L2 F2]; cbv beta.
  rewrite (sum_list_fmap_const _ d3); [by rewrite L2 | exact F2].
Qed.

End SuperConv2D_more.

Lemma active_product_le (i o k si so sk : Z) :
  0 ≤ i ≤ si → 0 ≤ o ≤ so → 0 ≤ k ≤ sk →
  i * o * k ^ 2 ≤ so * si * sk * sk.
Proof.
  intros Hi Ho Hk.
  assert (i * o ≤ si * so) by (apply Z.mul_le_mono_nonneg; lia).
  assert (k * k ≤ sk * sk) by (apply Z.mul_le_mono_nonneg; lia).
  assert (i * o * (k * k) ≤ si * so * (sk * sk))
    by (apply Z.mul_le_mono_nonneg; lia).
  replace (k ^ 2) with (k * k) by ring.
  replace (so * si * sk * sk) with (si * so * (sk * sk)) by ring.
  done.
Qed.

Section SuperConv2D_more_properties.
Context {A : Type}.
Implicit Types self : SuperConv2D A.

Lemma subnet_entries_twice (sub : gmap string (tensor A)) (w1 w2 : tensor A) :
  <["weight" := w2]> (<["weight" := w1]> sub) = <["weight" := w2]> sub.
Proof. apply insert_insert_eq. Qed.

Lemma subnet_entries_bias_twice (sub : gmap string (tensor A)) (w1 b1 w2 b2 : tensor A) :
  <["bias" := b2]> (<["bias" := b2]> (<["weight" := w2]>
    (<["bias" := b1]> (<["bias" := b1]> (<["weight" := w1]> sub))))) =
  <["bias" := b2]> (<["bias" := b2]> (<["weight" := w2]> sub)).
Proof.
  apply map_eq. intros key.
  destruct (decide (key = "bias")) as [->|Hb'];
    [by rewrite !lookup_insert_eq |].
  rewrite !(lookup_insert_ne _ "bias") by done.
  destruct (decide (key = "weight")) as [->|Hw'];
    [by rewrite !lookup_insert_eq |].
  by rewrite !lookup_insert_ne by done.
Qed.

Ltac unfold_SuperConv2D :=
  cbv beta iota zeta delta
    [materialized configured later_or set_subnet_item set_subnet_in_dim
     set_subnet_out_dim set_subnet_kernel_size weight bias weight_element_size
     bias_element_size super_in_dim super_out_dim super_kernel_size stride
     padding subnet profiling subnet_in_dim subnet_out_dim subnet_kernel_size].

Lemma materialized_idempotent self : materialized (materialized self) = materialized self.
Proof.
  destruct self as [w b wes bes si so sk st pd sub pr ai ao ak].
  destruct b as [bv|]; unfold_SuperConv2D; f_equal.
  - apply subnet_entries_bias_twice.
  - apply subnet_entries_twice.
Qed.

Lemma materialized_configured_twice (i1 o1 k1 i2 o2 k2 : option Z) self :
  materialized (configured i2 o2 k2 (materialized (configured i1 o1 k1 self))) =
  materialized (configured (later_or i2 i1) (later_or o2 o1) (later_or k2 k1) self).
Proof.
  destruct self as [w b wes bes si so sk st pd sub pr ai ao ak].
  destruct b as [bv|], i1, o1, k1, i2, o2, k2; unfold_SuperConv2D; f_equal;
    first [apply subnet_entries_bias_twice | apply subnet_entries_twice].
Qed.


(** X2. Two calls of [set_subnet_config] in a row act as one call whose
    arguments are, field by field, the second call's when given and the
    first call's otherwise.  In particular a configuration set after a
    smaller one leaves the operator as if the smaller one had never been
    set: shrinking loses nothing of the superkernel. *)
Theorem set_subnet_config_twice (i1 o1 k1 i2 o2 k2 : option Z) self :
  (s ← set_subnet_config i1 o1 k1 self; set_subnet_config i2 o2 k2 s) =
    set_subnet_config (later_or i2 i1) (later_or o2 o1) (later_or k2 k1) self ∧
  ∀ i o k i' o' k' : Z,
    (s ← set_subnet_config (Some i') (Some o') (Some k') self;
     set_subnet_config (Some i) (Some o) (Some k) s) =
      set_subnet_config (Some i) (Some o) (Some k) self.
Proof.
  assert (∀ a1 b1 c1 a2 b2 c2,
    (s ← set_subnet_config a1 b1 c1 self; set_subnet_config a2 b2 c2 s) =
      set_subnet_config (later_or a2 a1) (later_or b2 b1) (later_or c2 c1) self) as H.
  { intros. rewrite !set_subnet_config_ok, bind_Ok, set_subnet_config_ok.
    f_equal. apply materialized_configured_twice. }
  split; [apply H |]. intros. apply H.
Qed.

(** X3. [forward] changes nothing but the two entries of [self.subnet]:
    the operator it leaves is the one a [set_subnet_config()] call without
    arguments leaves, and calling [forward] again on it with the same
    input gives the same output and the same operator. *)
Theorem SuperConv2D_forward_repeatable {X : Type}
    (conv2d : X → tensor A → option (tensor A) → conv_stride → conv_padding → result X)
    self (x out : X) self' :
  SuperConv2D_forward conv2d self x = Ok (out, self') →
  set_subnet_config None None None self = Ok self' ∧
  subnet_in_dim self' = subnet_in_dim self ∧
  subnet_out_dim self' = subnet_out_dim self ∧
  subnet_kernel_size self' = subnet_kernel_size self ∧
  weight self' = weight self ∧ bias self' = bias self ∧
  SuperConv2D_forward conv2d self' x = Ok (out, self').
Proof.
  unfold SuperConv2D_forward.
  rewrite _subnet_parameters_ok, bind_Ok. unfold dict_get.
  rewrite materialized_weight_entry, bind_Ok.
  pose proof (materialized_fields self) as Hm. cbv zeta in Hm.
  destruct Hm as (Mi & Mo & Mk & Mw & Mb & _ & _ & _ & _ & _ & Mst & Mpd & _).
  rewrite Mst, Mpd.
  destruct (conv2d x _ None (stride self) (padding self)) as [y|e] eqn:Hconv;
    [rewrite bind_Ok | by rewrite bind_Raise].
  intros [= <- <-].
  split; [apply set_subnet_config_ok |].
  do 5 (split; [done |]).
  rewrite _subnet_parameters_ok, bind_Ok, materialized_idempotent.
  rewrite materialized_weight_entry, bind_Ok, ?Mi, ?Mo, ?Mk, ?Mw, Mst, Mpd, Hconv.
  by rewrite bind_Ok.
Qed.

(** X4. [set_subnet_config] accepts every integer, negative ones
    included, and the extents of the materialized weight are those of
    Python's slices: min(v, max) for a value v >= 0, and max(max + v, 0)
    for a negative v, which cuts |v| entries off the end of the axis. *)
Theorem set_subnet_config_any_integer (i o k : option Z) self :
  superkernel_shaped self →
  ∃ self' w,
    set_subnet_config i o k self = Ok self' ∧
    subnet self' !! "weight" = Some (T4 w) ∧
    has_shape4 w
      (py_slice_extent (default (subnet_out_dim self) o) (Z.to_nat (super_out_dim self)))
      (py_slice_extent (default (subnet_in_dim self) i) (Z.to_nat (super_in_dim self)))
      (py_slice_extent (default (subnet_kernel_size self) k)
         (Z.to_nat (super_kernel_size self)))
      (py_slice_extent (default (subnet_kernel_size self) k)
         (Z.to_nat (super_kernel_size self))).
Proof.
  intros [Hw _].
  destruct (set_subnet_config_effect i o k self)
    as (self' & Hok & Ei & Eo & Ek & Ew & _).
  eexists self', _. split; [exact Hok |]. split; [exact Ew |].
  rewrite Ei, Eo, Ek. by apply _subselect_weight_shape_any.
Qed.

(** X5. For a superkernel of maximal extent and an active configuration
    within 0 and the maximal bounds, the count that
    [calculate_superconv2d_params] reports is the number of elements of
    the materialized weight, plus the length of the materialized bias
    when there is one; it is at most the number of elements the operator
    stores. *)
Theorem active_count_is_materialized_numel self :
  superkernel_shaped self →
  0 ≤ subnet_in_dim self ≤ super_in_dim self →
  0 ≤ subnet_out_dim self ≤ super_out_dim self →
  0 ≤ subnet_kernel_size self ≤ super_kernel_size self →
  (calculate_superconv2d_params self).1 =
    numel4 (_subselect_weight (weight self) (subnet_in_dim self)
              (subnet_out_dim self) (subnet_kernel_size self)) +
    match bias self with
    | Some b => Z.of_nat (length (_subselect_bias b (subnet_out_dim self)))
    | None => 0
    end ∧
  (calculate_superconv2d_params self).1 ≤
    numel4 (weight self) +
    match bias self with
    | Some b => Z.of_nat (length b)
    | None => 0
    end.
Proof.
  intros [Hw Hb] Hi Ho Hk.
  pose proof (_subselect_weight_shape (weight self) _ _ _ _
    (subnet_in_dim self) (subnet_out_dim self) (subnet_kernel_size self)
    ltac:(lia) ltac:(lia) ltac:(lia) Hw) as Hs.
  rewrite !Nat.min_l in Hs by lia.
  rewrite (numel4_shape _ _ _ _ _ Hs), (numel4_shape _ _ _ _ _ Hw).
  rewrite !Z2Nat.id by lia.
  pose proof (active_product_le _ _ _ _ _ _ Hi Ho Hk) as Hle.
  unfold calculate_superconv2d_params, _subselect_bias.
  destruct (bias self) as [b|]; cbn [fst].
  - rewrite py_slice_stop_length by lia. rewrite Hb, Nat.min_l by lia.
    rewrite !Z2Nat.id by lia. split; [ring | lia].
  - split; [ring | lia].
Qed.

(** X6. Slicing a slice is slicing the superkernel: for non-negative
    configurations the slice for (i', o', k') taken from the slice for
    (i, o, k) is the slice of the superkernel for the field-wise minimum.
    The weights of a smaller sub-network are a prefix of those of every
    larger one. *)
Theorem _subselect_weight_nested (w : tensor4 A) (i o k i' o' k' : Z) :
  0 ≤ i → 0 ≤ o → 0 ≤ k → 0 ≤ i' → 0 ≤ o' → 0 ≤ k' →
  _subselect_weight (_subselect_weight w i o k) i' o' k' =
    _subselect_weight w (i' `min` i) (o' `min` o) (k' `min` k).
Proof.
  intros Hi Ho Hk Hi' Ho' Hk'. unfold _subselect_weight.
  rewrite !(py_slice_stop_nonneg o'), !(py_slice_stop_nonneg o),
    !(py_slice_stop_nonneg (o' `min` o)) by lia.
  rewrite <- fmap_take, take_take, <- list_fmap_compose, Z2Nat.inj_min.
  apply list_fmap_ext. intros _ w1 _. unfold compose.
  rewrite !(py_slice_stop_nonneg i'), !(py_slice_stop_nonneg i),
    !(py_slice_stop_nonneg (i' `min` i)) by lia.
  rewrite <- fmap_take, take_take, <- list_fmap_compose, Z2Nat.inj_min.
  apply list_fmap_ext. intros _ w2 _. unfold compose.
  rewrite !(py_slice_stop_nonneg k'), !(py_slice_stop_nonneg k),
    !(py_slice_stop_nonneg (k' `min` k)) by lia.
  rewrite <- fmap_take, take_take, <- list_fmap_compose, Z2Nat.inj_min.
  apply list_fmap_ext. intros _ w3 _. unfold compose.
  rewrite !(py_slice_stop_nonneg k'), !(py_slice_stop_nonneg k),
    !(py_slice_stop_nonneg (k' `min` k)) by lia.
  by rewrite take_take, Z2Nat.inj_min.
Qed.
End SuperConv2D_more_properties.

(** ** More on the elastic container *)

Section SuperSequential_more.
Context {X : Type}.
Implicit Types self : SuperSequential X.

Lemma forward_explicit_depth self (x : X) (n : Z) :
  SuperSequential_forward self x (Some n) =
    SuperSequential_forward (mkSuperSequential (layers self) n) x None.
Proof. reflexivity. Qed.

Lemma run_layers_app (fs gs : list (X → result X)) (x : X) :
  run_layers (fs ++ gs) x = (y ← run_layers fs x; run_layers gs y).
Proof. apply for_loop_app. Qed.

(** X7. A freshly constructed container runs all of its sub-operators,
    and so does any container whose depth is set to its length. *)
Theorem SuperSequential_init_runs_all (args : list (X → result X)) (x : X) :
  SuperSequential_forward (SuperSequential_init args) x None = run_layers args x ∧
  ∀ self,
    (s ← set_num_layers (Z.of_nat (length (layers self))) self;
     SuperSequential_forward s x None) = run_layers (layers self) x.
Proof.
  split.
  - rewrite forward_within_length by (simpl; lia). simpl.
    by rewrite Nat2Z.id, firstn_all.
  - intros self. unfold set_num_layers. rewrite bind_Ok.
    rewrite forward_within_length by (simpl; lia). simpl.
    by rewrite Nat2Z.id, firstn_all.
Qed.

(** X8. Depths compose: within the length of the container, running to
    depth a + b is running to depth a and then running the next b
    sub-operators on the result. *)
Theorem SuperSequential_forward_depth_add self (x : X) (a b : nat) :
  (a + b ≤ length (layers self))%nat →
  SuperSequential_forward self x (Some (Z.of_nat (a + b))) =
    (y ← SuperSequential_forward self x (Some (Z.of_nat a));
     run_layers (take b (drop a (layers self))) y).
Proof.
  intros Hlen. rewrite !forward_explicit_depth.
  rewrite !forward_within_length by (simpl; lia). simpl.
  rewrite !Nat2Z.id, <- take_take_drop. apply run_layers_app.
Qed.

(** X9. An exception raised by a sub-operator inside the active depth
    ends the run and is what [forward] raises; the sub-operators after it
    are not called, and the exception comes before the index error of a
    depth beyond the length. *)
Theorem SuperSequential_forward_propagates self (x y : X) (j : nat)
    (f : X → result X) (e : exn) (n : Z) :
  layers self !! j = Some f →
  run_layers (take j (layers self)) x = Ok y →
  f y = Raise e →
  Z.of_nat j < n →
  SuperSequential_forward self x (Some n) = Raise e.
Proof.
  intros Hj Hrun Hf Hn.
  pose proof (lookup_lt_Some _ _ _ Hj) as Hlt.
  unfold SuperSequential_forward, py_range.
  replace (Z.to_nat n) with (j + S (Z.to_nat n - S j))%nat by lia.
  rewrite seq_app, fmap_app, for_loop_app.
  rewrite forward_loop_segment by lia.
  rewrite drop_0, Hrun, bind_Ok. simpl.
  by rewrite (SuperSequential_getitem_lookup _ _ _ Hj), bind_Ok, Hf.
Qed.
End SuperSequential_more.

(** ** More on the traversal *)

(** The objects of a module tree in depth-first pre-order, every
    registration listed. *)
Fixpoint preorder (m : nn_module) : list nat :=
  match m with
  | Node id children => id :: flat_map preorder children
  end.

Lemma named_modules_children_fresh (children : list nn_module) :
  Forall (fun c => ∀ memo : gset nat,
            (∀ y, y ∈ preorder c → y ∉ memo) → NoDup (preorder c) →
            named_modules c memo = (preorder c, memo ∪ list_to_set (preorder c)))
         children →
  ∀ memo : gset nat,
    (∀ y, y ∈ flat_map preorder children → y ∉ memo) →
    NoDup (flat_map preorder children) →
    named_modules_children children memo =
      (flat_map preorder children, memo ∪ list_to_set (flat_map preorder children)).
Proof.
  induction 1 as [|c cs Hc _ IH]; intros memo Hfresh Hnd; simpl.
  { f_equal. set_solver. }
  simpl in Hfresh, Hnd. apply NoDup_app in Hnd as (Hnd1 & Hdisj & Hnd2).
  rewrite (Hc memo); [| intros y Hy; apply Hfresh, elem_of_app; by left | done].
  rewrite (IH (memo ∪ list_to_set (preorder c))); [| | done].
  - f_equal. rewrite list_to_set_app_L. set_solver.
  - intros y Hy [Hm|Hp%elem_of_list_to_set]%elem_of_union.
    + apply (Hfresh y); [apply elem_of_app; by right | done].
    + by apply (Hdisj y).
Qed.

Lemma named_modules_fresh (m : nn_module) (memo : gset nat) :
  (∀ y, y ∈ preorder m → y ∉ memo) →
  NoDup (preorder m) →
  named_modules m memo = (preorder m, memo ∪ list_to_set (preorder m)).
Proof.
  revert memo. induction m as [id children IH] using nn_module_ind.
  intros memo Hfresh Hnd. rewrite named_modules_Node.
  simpl in Hfresh, Hnd. apply NoDup_cons in Hnd as [Hid Hnd].
  rewrite decide_False by (apply Hfresh; by left).
  rewrite (named_modules_children_fresh children IH); [| | done].
  - simpl. f_equal. set_solver.
  - intros y Hy [->%elem_of_singleton|Hm]%elem_of_union; [done |].
    apply (Hfresh y); [by right | done].
Qed.

Lemma named_modules_sound (m : nn_module) (memo : gset nat) :
  (named_modules m memo).1 ⊆ preorder m.
Proof.
  revert memo. induction m as [id children IH] using nn_module_ind. intros memo.
  rewrite named_modules_Node. case_decide; [set_solver |].
  assert (∀ memo1, (named_modules_children children memo1).1
                     ⊆ flat_map preorder children) as Hc.
  { clear memo H. induction IH as [|c cs Hc _ IHcs]; intros memo1; simpl; [done |].
    specialize (Hc memo1). destruct (named_modules c memo1) as [ys memo2].
    specialize (IHcs memo2).
    destruct (named_modules_children cs memo2) as [zs memo3]. simpl in *.
    set_solver. }
  specialize (Hc ({[id]} ∪ memo)).
  destruct (named_modules_children children ({[id]} ∪ memo)) as [ys memo'].
  simpl in *. set_solver.
Qed.

(** X10. When every module of the tree is a distinct object, the
    traversal yields the objects in depth-first pre-order: a module
    before its sub-modules, and the sub-modules in registration order. *)
Theorem modules_is_preorder (self : nn_module) :
  NoDup (preorder self) → modules self = preorder self.
Proof.
  intros Hnd. unfold modules.
  rewrite named_modules_fresh; [done | set_solver | done].
Qed.

(** X11. Whatever objects are shared between places of the tree, the
    traversal yields no object twice, yields only objects of the tree,
    and yields the root first. *)
Theorem modules_once_each (id : nat) (children : list nn_module) :
  NoDup (modules (Node id children)) ∧
  modules (Node id children) ⊆ preorder (Node id children) ∧
  head (modules (Node id children)) = Some id.
Proof.
  split; [apply modules_NoDup |]. split; [apply named_modules_sound |].
  unfold modules. rewrite named_modules_Node.
  rewrite decide_False by set_solver.
  by destruct (named_modules_children children ({[id]} ∪ ∅)).
Qed.

(** ** More on the configuration protocol *)

(** What [set_config] keeps of every object: an elastic convolution keeps
    its superkernel, bias, bounds, stride, padding and its active input
    and output channels; an elastic container keeps its sub-operators;
    any other object, and any absent one, is kept as it is. *)
Definition config_frame {A X : Type} (h h' : gmap nat (object A X)) : Prop :=
  ∀ id,
    match h !! id with
    | Some (ObjSuperConv2D c) =>
        ∃ c', h' !! id = Some (ObjSuperConv2D c') ∧
              weight c' = weight c ∧ bias c' = bias c ∧
              super_in_dim c' = super_in_dim c ∧
              super_out_dim c' = super_out_dim c ∧
              super_kernel_size c' = super_kernel_size c ∧
              stride c' = stride c ∧ padding c' = padding c ∧
              subnet_in_dim c' = subnet_in_dim c ∧
              subnet_out_dim c' = subnet_out_dim c
    | Some (ObjSuperSequential s) =>
        ∃ s', h' !! id = Some (ObjSuperSequential s') ∧ layers s' = layers s
    | o => h' !! id = o
    end.

Lemma comprehension_inv {U T : Type} (f : U → result T) (xs : list U) (ys : list T) :
  comprehension f xs = Ok ys →
  length ys = length xs ∧
  ∀ j x y, xs !! j = Some x → ys !! j = Some y → f x = Ok y.
Proof.
  revert ys. induction xs as [|x xs IH]; intros ys; simpl.
  { intros [= <-]. split; [done |]. intros j x y Hx. by rewrite lookup_nil in Hx. }
  destruct (f x) as [y|e] eqn:Hfx; simpl; [| done].
  destruct (comprehension f xs) as [ys'|e] eqn:Hc; simpl; [| done].
  intros [= <-]. destruct (IH ys' eq_refl) as [Hlen Hall].
  split; [simpl; lia |].
  intros [|j] x' y' Hx Hy; simpl in *.
  - by injection Hx as <-; injection Hy as <-.
  - by eapply Hall.
Qed.

Lemma comprehension_total {U T : Type} (f : U → result T) (xs : list U) :
  Forall (fun x => ∃ y, f x = Ok y) xs → ∃ ys, comprehension f xs = Ok ys.
Proof.
  induction 1 as [|x xs [y Hy] _ [ys IH]]; simpl; [by eexists |].
  rewrite Hy, bind_Ok, IH, bind_Ok. by eexists.
Qed.

Lemma for_loop_invariant {S T : Type} (R : S → S → Prop) (body : S → T → result S)
    (xs : list T) :
  (∀ s, R s s) →
  (∀ s1 s2 s3, R s1 s2 → R s2 s3 → R s1 s3) →
  (∀ s x s', body s x = Ok s' → R s s') →
  ∀ s s', for_loop body xs s = Ok s' → R s s'.
Proof.
  intros Hrefl Htrans Hbody. induction xs as [|x xs IH]; intros s s'; simpl.
  { intros [= <-]. apply Hrefl. }
  destruct (body s x) as [s1|e] eqn:Hb; simpl; [| done].
  intros Hloop. eapply Htrans; [by eapply Hbody | by apply IH].
Qed.

Section Network_more.
Context {A X : Type}.
Implicit Types h : gmap nat (object A X).

Lemma config_frame_refl h : config_frame h h.
Proof.
  intros id. destruct (h !! id) as [[c|s|]|] eqn:Hid; try done.
  - by exists c.
  - by exists s.
Qed.

Lemma config_frame_trans h1 h2 h3 :
  config_frame h1 h2 → config_frame h2 h3 → config_frame h1 h3.
Proof.
  intros H12 H23 id. specialize (H12 id). specialize (H23 id).
  destruct (h1 !! id) as [[c|s|]|].
  - destruct H12 as (c2 & E2 & ?). rewrite E2 in H23.
    destruct H23 as (c3 & E3 & ?). exists c3.
    split; [done |]. intuition congruence.
  - destruct H12 as (s2 & E2 & ?). rewrite E2 in H23.
    destruct H23 as (s3 & E3 & ?). exists s3. split; [done | congruence].
  - by rewrite H12 in H23.
  - by rewrite H12 in H23.
Qed.

Lemma call_set_subnet_config_frame op (ks : Z) h h' :
  call_set_subnet_config op ks h = Ok h' → config_frame h h'.
Proof.
  unfold call_set_subnet_config.
  destruct (h !! op) as [[c| |]|] eqn:Hop; try done.
  rewrite set_subnet_config_ok, bind_Ok. intros [= <-] id.
  destruct (decide (op = id)) as [<-|Hne].
  - rewrite Hop, lookup_insert_eq. eexists. split; [done |].
    pose proof (materialized_fields (configured None None (Some ks) c)) as Hm.
    cbv zeta in Hm. simpl in Hm. intuition congruence.
  - rewrite lookup_insert_ne by done. apply config_frame_refl.
Qed.

Lemma call_set_num_layers_frame op (n : Z) h h' :
  call_set_num_layers op n h = Ok h' → config_frame h h'.
Proof.
  unfold call_set_num_layers.
  destruct (h !! op) as [[|s|]|] eqn:Hop; try done.
  unfold set_num_layers. rewrite bind_Ok. intros [= <-] id.
  destruct (decide (op = id)) as [<-|Hne].
  - rewrite Hop, lookup_insert_eq. by eexists.
  - rewrite lookup_insert_ne by done. apply config_frame_refl.
Qed.

Lemma get_config_reads (self : nn_module) h :
  ∃ ks nl,
    get_config self h = Ok (<["num_layers" := nl]> (<["ks" := ks]> ∅)) ∧
    length ks = length (get_super_ops self h) ∧
    length nl = length (get_super_sequential_ops self h) ∧
    (∀ j id k, get_super_ops self h !! j = Some id → ks !! j = Some k →
               read_subnet_kernel_size h id = Ok k) ∧
    (∀ j id n, get_super_sequential_ops self h !! j = Some id → nl !! j = Some n →
               read_num_layers h id = Ok n).
Proof.
  unfold get_config.
  destruct (comprehension_total (read_subnet_kernel_size h) (get_super_ops self h))
    as [ks Hks].
  { apply Forall_forall. intros id Hid%elem_of_get_super_ops.
    unfold is_SuperConv2D, read_subnet_kernel_size in *.
    destruct (h !! id) as [[c| |]|]; try done. by eexists. }
  destruct (comprehension_total (read_num_layers h) (get_super_sequential_ops self h))
    as [nl Hnl].
  { apply Forall_forall. intros id Hid%elem_of_get_super_sequential_ops.
    unfold is_SuperSequential, read_num_layers in *.
    destruct (h !! id) as [[|s|]|]; try done. by eexists. }
  exists ks, nl. rewrite Hks, bind_Ok, Hnl, bind_Ok.
  destruct (comprehension_inv _ _ _ Hks) as [Lk Rk].
  destruct (comprehension_inv _ _ _ Hnl) as [Ln Rn].
  done.
Qed.

(** X12. [get_config] never raises: it returns a dictionary with the
    keys ["ks"] and ["num_layers"], one kernel size per discovered
    elastic convolution and one depth per discovered elastic container,
    each the value stored in the operator at that position. *)
Theorem get_config_total (self : nn_module) h :
  ∃ ks nl,
    get_config self h = Ok (<["num_layers" := nl]> (<["ks" := ks]> ∅)) ∧
    length ks = length (get_super_ops self h) ∧
    length nl = length (get_super_sequential_ops self h) ∧
    (∀ j id k, get_super_ops self h !! j = Some id → ks !! j = Some k →
               read_subnet_kernel_size h id = Ok k) ∧
    (∀ j id n, get_super_sequential_ops self h !! j = Some id → nl !! j = Some n →
               read_num_layers h id = Ok n).
Proof. apply get_config_reads. Qed.

(** X13. [set_config] needs both keys: without ["ks"] it raises
    [KeyError] for ["ks"], with ["ks"] but without ["num_layers"] it
    raises [KeyError] for ["num_layers"], and with both it returns. *)
Theorem set_config_missing_key (config : gmap string (list Z)) (self : nn_module) h :
  match config !! "ks", config !! "num_layers" with
  | None, _ => set_config config self h = Raise (KeyError "ks")
  | Some _, None => set_config config self h = Raise (KeyError "num_layers")
  | Some _, Some _ => ∃ h', set_config config self h = Ok h'
  end.
Proof.
  destruct (config !! "ks") as [ks|] eqn:Hks.
  - destruct (config !! "num_layers") as [nl|] eqn:Hnl.
    + destruct (set_config_effect config self h ks nl Hks Hnl) as (h' & Hset & _).
      by exists h'.
    + unfold set_config, dict_get. rewrite Hks, Hnl, bind_Ok.
      destruct (for_loop_zip_heap call_set_subnet_config
                  (fun h id => is_SuperConv2D h id) read_subnet_kernel_size
                  call_set_subnet_config_spec is_SuperConv2D_same_types
                  read_subnet_kernel_size_local
                  ks (get_super_ops self h) h)
        as (h1 & -> & _).
      { apply get_super_ops_NoDup. }
      { apply Forall_forall. intros id. apply elem_of_get_super_ops. }
      done.
  - unfold set_config, dict_get. by rewrite Hks.
Qed.

(** X14. [set_config] changes nothing but kernel sizes, materialized
    slices and depths: every elastic convolution keeps its superkernel,
    bias, bounds, stride, padding and active input and output channels,
    every elastic container keeps its sub-operators, and every other
    object is left as it is. *)
Theorem set_config_frame (config : gmap string (list Z)) (self : nn_module) h h' :
  set_config config self h = Ok h' → config_frame h h'.
Proof.
  unfold set_config, dict_get.
  destruct (config !! "ks") as [ks|]; [| done]. rewrite bind_Ok.
  destruct (for_loop _ (py_zip ks _) h) as [h1|e] eqn:Hloop1; [| done].
  rewrite bind_Ok.
  destruct (config !! "num_layers") as [nl|]; [| done]. rewrite bind_Ok.
  intros Hloop2.
  eapply config_frame_trans.
  - eapply (for_loop_invariant config_frame); [apply config_frame_refl
      | apply config_frame_trans | | exact Hloop1].
    intros s [v op] s'. apply call_set_subnet_config_frame.
  - eapply (for_loop_invariant config_frame); [apply config_frame_refl
      | apply config_frame_trans | | exact Hloop2].
    intros s [v op] s'. apply call_set_num_layers_frame.
Qed.

(** X15. Applying the configuration that [get_config] returns is always
    possible and changes no kernel size and no depth: [get_config]
    returns the same dictionary afterwards. *)
Theorem get_config_set_config_round_trip (self : nn_module) h
    (config : gmap string (list Z)) :
  get_config self h = Ok config →
  ∃ h', set_config config self h = Ok h' ∧ get_config self h' = Ok config.
Proof.
  destruct (get_config_reads self h) as (ks & nl & Hget & Lk & Ln & _ & _).
  rewrite Hget. intros [= <-].
  destruct (set_config_effect (<["num_layers" := nl]> (<["ks" := ks]> ∅)) self h ks nl)
    as (h' & Hset & Hsame & Hconv & Hseq & _).
  { by rewrite lookup_insert_ne, lookup_insert_eq. }
  { by rewrite lookup_insert_eq. }
  exists h'. split; [exact Hset |].
  unfold get_config.
  rewrite (get_super_ops_same_types self h h' Hsame).
  rewrite (get_super_sequential_ops_same_types self h h' Hsame).
  rewrite (comprehension_lookup _ _ ks Lk Hconv), bind_Ok.
  by rewrite (comprehension_lookup _ _ nl Ln Hseq), bind_Ok.
Qed.
End Network_more.

(** ** The parameter count [get_parameters]

    The module tree as the count sees it.  A module is one of
    - a layer without sub-modules ([nn.Conv2d], [nn.BatchNorm2d],
      [nn.ReLU], [nn.MaxPool2d], [nn.Linear], ...), with the number of
      elements of its parameters;
    - a [SuperConv2D];
    - a [BasicConv2d] with its sub-modules [conv], [bn] and [relu];
    - an [nn.Sequential] with its elements; [num_layers] is the active
      depth when the container is a [SuperSequential];
    - a [CustomNNModule] (it has the method [get_parameters]), with the
      number of elements of the parameters it owns directly and its
      sub-modules;
    - any other [nn.Module], likewise.
    No module and no parameter is shared between two places of the
    tree, so [named_children] and [parameters] have nothing to leave out. *)

Unset Elimination Schemes.
Inductive pmodule (A : Type) : Type :=
  | PLayer (numel : Z)
  | PSuperConv2D (op : SuperConv2D A)
  | PBasicConv2d (conv bn relu : pmodule A)
  | PSequential (num_layers : option Z) (items : list (pmodule A))
  | PCustom (own : Z) (children : list (pmodule A))
  | PModule (own : Z) (children : list (pmodule A)).
Set Elimination Schemes.
Arguments PLayer {A} numel.
Arguments PSuperConv2D {A} op.
Arguments PBasicConv2d {A} conv bn relu.
Arguments PSequential {A} num_layers items.
Arguments PCustom {A} own children.
Arguments PModule {A} own children.

(** Python's [sum] of a list of integers. *)
Definition py_sum (l : list Z) : Z := foldr Z.add 0 l.

Section get_parameters.
Context {A : Type}.

(** [module.named_children()] *)
Definition named_children (module : pmodule A) : list (pmodule A) :=
  match module with
  | PLayer _ => []
  | PSuperConv2D _ => []
  | PBasicConv2d conv bn relu => [conv; bn; relu]
  | PSequential _ items => items
  | PCustom _ children => children
  | PModule _ children => children
  end.

(** [sum(p.numel() for p in module.parameters())]: the parameters of the
    module and of everything below it. *)
Fixpoint numel (module : pmodule A) : Z :=
  match module with
  | PLayer n => n
  | PSuperConv2D op =>
      numel4 (weight op) +
      match bias op with
      | Some b => Z.of_nat (length b)
      | None => 0
      end
  | PBasicConv2d conv bn relu => numel conv + numel bn + numel relu
  | PSequential _ items => py_sum (numel <$> items)
  | PCustom own children => own + py_sum (numel <$> children)
  | PModule own children => own + py_sum (numel <$> children)
  end.

(** [get_parameters(model)] *)
Fixpoint get_parameters (model : pmodule A) : Z :=
  let module_params (module : pmodule A) : Z :=
    match module with
    | PCustom _ _ => get_parameters module
    | PBasicConv2d (PSuperConv2D conv) bn relu =>
        (calculate_superconv2d_params conv).1 + numel bn + numel relu
    | PSuperConv2D op => (calculate_superconv2d_params op).1
    | PSequential _ items => py_sum (get_parameters <$> items)
    | _ => numel module
    end in
  match model with
  | PLayer _ => py_sum []
  | PSuperConv2D _ => py_sum []
  | PBasicConv2d conv bn relu =>
      py_sum [module_params conv; module_params bn; module_params relu]
  | PSequential _ items => py_sum (module_params <$> items)
  | PCustom _ children => py_sum (module_params <$> children)
  | PModule _ children => py_sum (module_params <$> children)
  end.
End get_parameters.

Section get_parameters_facts.
Context {A : Type}.
Implicit Types module model : pmodule A.

(** The body of the loop of [get_parameters]: what one child adds. *)
Definition module_params module : Z :=
  match module with
  | PCustom _ _ => get_parameters module
  | PBasicConv2d (PSuperConv2D conv) bn relu =>
      (calculate_superconv2d_params conv).1 + numel bn + numel relu
  | PSuperConv2D op => (calculate_superconv2d_params op).1
  | PSequential _ items => py_sum (get_parameters <$> items)
  | _ => numel module
  end.

(** Every active configuration in the tree lies between 0 and the
    maximal bounds of a superkernel of maximal extent, and every number
    of elements is non-negative. *)
Fixpoint pmodule_wf module : Prop :=
  match module with
  | PLayer n => 0 ≤ n
  | PSuperConv2D op =>
      superkernel_shaped op ∧
      0 ≤ subnet_in_dim op ≤ super_in_dim op ∧
      0 ≤ subnet_out_dim op ≤ super_out_dim op ∧
      0 ≤ subnet_kernel_size op ≤ super_kernel_size op
  | PBasicConv2d conv bn relu => pmodule_wf conv ∧ pmodule_wf bn ∧ pmodule_wf relu
  | PSequential _ items =>
      (fix all (l : list (pmodule A)) : Prop :=
         match l with
         | [] => True
         | m :: l' => pmodule_wf m ∧ all l'
         end) items
  | PCustom own children | PModule own children =>
      0 ≤ own ∧
      (fix all (l : list (pmodule A)) : Prop :=
         match l with
         | [] => True
         | m :: l' => pmodule_wf m ∧ all l'
         end) children
  end.

(** The same tree with other active depths. *)
Fixpoint map_depths (d : option Z → option Z) module : pmodule A :=
  match module with
  | PLayer n => PLayer n
  | PSuperConv2D op => PSuperConv2D op
  | PBasicConv2d conv bn relu =>
      PBasicConv2d (map_depths d conv) (map_depths d bn) (map_depths d relu)
  | PSequential nl items => PSequential (d nl) (map_depths d <$> items)
  | PCustom own children => PCustom own (map_depths d <$> children)
  | PModule own children => PModule own (map_depths d <$> children)
  end.

Section pmodule_induction.
Variable P : pmodule A → Prop.
Hypothesis IH_layer : ∀ n, P (PLayer n).
Hypothesis IH_super : ∀ op, P (PSuperConv2D op).
Hypothesis IH_basic : ∀ conv bn relu,
  P conv → P bn → P relu → P (PBasicConv2d conv bn relu).
Hypothesis IH_sequential : ∀ nl items, Forall P items → P (PSequential nl items).
Hypothesis IH_custom : ∀ own children, Forall P children → P (PCustom own children).
Hypothesis IH_module : ∀ own children, Forall P children → P (PModule own children).

Fixpoint pmodule_ind module : P module :=
  let all :=
    fix all (l : list (pmodule A)) : Forall P l :=
      match l with
      | [] => List.Forall_nil P
      | m :: l' => List.Forall_cons P m l' (pmodule_ind m) (all l')
      end in
  match module with
  | PLayer n => IH_layer n
  | PSuperConv2D op => IH_super op
  | PBasicConv2d conv bn relu =>
      IH_basic conv bn relu (pmodule_ind conv) (pmodule_ind bn) (pmodule_ind relu)
  | PSequential nl items => IH_sequential nl items (all items)
  | PCustom own children => IH_custom own children (all children)
  | PModule own children => IH_module own children (all children)
  end.
End pmodule_induction.

Lemma get_parameters_unfold model :
  get_parameters model = py_sum (module_params <$> named_children model).
Proof. by destruct model. Qed.

Lemma pmodule_wf_all (l : list (pmodule A)) :
  (fix all (l : list (pmodule A)) : Prop :=
     match l with
     | [] => True
     | m :: l' => pmodule_wf m ∧ all l'
     end) l ↔ Forall pmodule_wf l.
Proof.
  induction l as [|m l IH]; simpl.
  - split; [constructor | done].
  - rewrite IH. split.
    + intros [? ?]. by constructor.
    + intros [? ?]%Forall_cons. done.
Qed.

Lemma py_sum_cons (x : Z) (l : list Z) : py_sum (x :: l) = x + py_sum l.
Proof. reflexivity. Qed.

Lemma py_sum_le (f g : pmodule A → Z) (l : list (pmodule A)) :
  Forall (fun m => f m ≤ g m) l → py_sum (f <$> l) ≤ py_sum (g <$> l).
Proof.
  induction 1 as [|m l Hm _ IH]; [done |].
  rewrite !fmap_cons, !py_sum_cons. lia.
Qed.

Lemma py_sum_zero (f : pmodule A → Z) (l : list (pmodule A)) :
  Forall (fun m => f m = 0) l → py_sum (f <$> l) = 0.
Proof.
  induction 1 as [|m l Hm _ IH]; [done |].
  rewrite !fmap_cons, !py_sum_cons. lia.
Qed.

Lemma py_sum_ext (f g : pmodule A → Z) (l : list (pmodule A)) :
  Forall (fun m => f m = g m) l → py_sum (f <$> l) = py_sum (g <$> l).
Proof.
  induction 1 as [|m l Hm _ IH]; [done |].
  rewrite !fmap_cons, !py_sum_cons. lia.
Qed.

Lemma numel4_nonneg (w : tensor4 A) : 0 ≤ numel4 w.
Proof. unfold numel4. lia. Qed.

Lemma active_count_le_stored (op : SuperConv2D A) :
  pmodule_wf (PSuperConv2D op) →
  (calculate_superconv2d_params op).1 ≤ numel (PSuperConv2D op).
Proof.
  intros ([Hw Hb] & Hi & Ho & Hk). cbn [numel].
  rewrite (numel4_shape _ _ _ _ _ Hw), !Z2Nat.id by lia.
  pose proof (active_product_le _ _ _ _ _ _ Hi Ho Hk) as Hle.
  unfold calculate_superconv2d_params.
  destruct (bias op) as [b|]; cbn [fst]; [rewrite Hb |]; lia.
Qed.

Lemma py_sum_nonneg (f : pmodule A → Z) (l : list (pmodule A)) :
  Forall (fun m => 0 ≤ f m) l → 0 ≤ py_sum (f <$> l).
Proof.
  induction 1 as [|m l Hm _ IH]; [done |].
  rewrite !fmap_cons, !py_sum_cons. lia.
Qed.

Lemma numel_nonneg module : pmodule_wf module → 0 ≤ numel module.
Proof.
  induction module as [n|op|conv bn relu IHc IHb IHr|nl items IH|own children IH
                       |own children IH] using pmodule_ind; cbn [numel pmodule_wf].
  - done.
  - intros _. pose proof (numel4_nonneg (weight op)). destruct (bias op); lia.
  - intros (Hc & Hb & Hr). specialize (IHc Hc). specialize (IHb Hb).
    specialize (IHr Hr). lia.
  - intros Hwf%pmodule_wf_all. apply py_sum_nonneg.
    apply Forall_forall. intros m Hm.
    rewrite Forall_forall in IH, Hwf. by apply IH, Hwf.
  - intros [Hown Hwf%pmodule_wf_all].
    enough (0 ≤ py_sum (numel <$> children)) by lia.
    apply py_sum_nonneg.
    apply Forall_forall. intros m Hm.
    rewrite Forall_forall in IH, Hwf. by apply IH, Hwf.
  - intros [Hown Hwf%pmodule_wf_all].
    enough (0 ≤ py_sum (numel <$> children)) by lia.
    apply py_sum_nonneg.
    apply Forall_forall. intros m Hm.
    rewrite Forall_forall in IH, Hwf. by apply IH, Hwf.
Qed.
End get_parameters_facts.

(** A small tree for the count: an elastic convolution in a
    [BasicConv2d] with a batch normalisation of 6 parameters, placed in a
    [SuperSequential] of depth 1 below a [CustomNNModule], beside a
    linear layer of 40 parameters. *)
Definition pnet_small : pmodule Z :=
  PModule 0
    [ PCustom 0
        [ PSequential (Some 1)
            [ PBasicConv2d (PSuperConv2D conv_small) (PLayer 6) (PLayer 0) ] ];
      PLayer 40 ].

Section get_parameters_properties.
Context {A : Type}.
Implicit Types module model : pmodule A.

Lemma params_at_most_stored module :
  pmodule_wf module →
  module_params module ≤ numel module ∧ get_parameters module ≤ numel module.
Proof.
  induction module as [n|op|conv bn relu IHc IHb IHr|nl items IH|own children IH
                       |own children IH] using pmodule_ind.
  - simpl. intros Hn. unfold py_sum; simpl. lia.
  - intros Hwf. split; [by apply active_count_le_stored |].
    apply (numel_nonneg _ Hwf).
  - intros (Hc & Hb & Hr).
    destruct (IHc Hc) as [Mc Gc], (IHb Hb) as [Mb Gb], (IHr Hr) as [Mr Gr].
    split.
    + destruct conv; simpl in *; lia.
    + rewrite get_parameters_unfold. simpl. lia.
  - intros Hwf%pmodule_wf_all.
    assert (Forall (fun m => module_params m ≤ numel m ∧ get_parameters m ≤ numel m)
              items) as Hall.
    { apply Forall_forall. intros m Hm.
      rewrite Forall_forall in IH, Hwf. by apply IH, Hwf. }
    split.
    + simpl. apply py_sum_le. eapply Forall_impl; [exact Hall |]. by intros m [_ ?].
    + rewrite get_parameters_unfold. simpl.
      apply py_sum_le. eapply Forall_impl; [exact Hall |]. by intros m [? _].
  - intros [Hown Hwf%pmodule_wf_all].
    assert (Forall (fun m => module_params m ≤ numel m ∧ get_parameters m ≤ numel m)
              children) as Hall.
    { apply Forall_forall. intros m Hm.
      rewrite Forall_forall in IH, Hwf. by apply IH, Hwf. }
    assert (get_parameters (PCustom own children) ≤ numel (PCustom own children)) as Hg.
    { rewrite get_parameters_unfold. simpl.
      enough (py_sum (module_params <$> children) ≤ py_sum (numel <$> children)) by lia.
      apply py_sum_le. eapply Forall_impl; [exact Hall |]. by intros m [? _]. }
    split; [exact Hg | exact Hg].
  - intros [Hown Hwf%pmodule_wf_all].
    assert (Forall (fun m => module_params m ≤ numel m ∧ get_parameters m ≤ numel m)
              children) as Hall.
    { apply Forall_forall. intros m Hm.
      rewrite Forall_forall in IH, Hwf. by apply IH, Hwf. }
    split; [simpl; lia |].
    rewrite get_parameters_unfold. simpl.
    enough (py_sum (module_params <$> children) ≤ py_sum (numel <$> children)) by lia.
    apply py_sum_le. eapply Forall_impl; [exact Hall |]. by intros m [? _].
Qed.

(** X16. With every active configuration between 0 and the maximal
    bounds, [get_parameters] never reports more than the number of
    parameters the model stores. *)
Theorem get_parameters_at_most_stored model :
  pmodule_wf model → get_parameters model ≤ numel model.
Proof. intros Hwf. by apply params_at_most_stored. Qed.

(** X17. [get_parameters] counts through sub-modules only.  A model
    without sub-modules counts 0 whatever parameters it owns, so the
    elements of an [nn.Sequential] that are bare layers - or bare
    [SuperConv2D]s - add nothing: the Sequential could as well be absent. *)
Theorem get_parameters_skips_bare_elements (own : Z) (nl : option Z)
    (items rest : list (pmodule A)) :
  Forall (fun item => named_children item = []) items →
  Forall (fun item => get_parameters item = 0) items ∧
  get_parameters (PModule own (PSequential nl items :: rest)) =
    get_parameters (PModule own rest).
Proof.
  intros Hbare.
  assert (Forall (fun item => get_parameters item = 0) items) as Hzero.
  { eapply Forall_impl; [exact Hbare |]. intros item Hc.
    rewrite get_parameters_unfold. cbv beta in Hc. by rewrite Hc. }
  split; [exact Hzero |].
  rewrite !get_parameters_unfold. cbn [named_children].
  rewrite fmap_cons, py_sum_cons. cbn [module_params].
  rewrite (py_sum_zero _ _ Hzero). lia.
Qed.

(** X18. A [BasicConv2d] around an elastic convolution, with layers as
    [bn] and [relu], adds the active count of the convolution plus the
    parameters of [bn] and [relu], in each of the places the network
    puts it: as a direct child, as an element of an [nn.Sequential], and
    as a child of a [CustomNNModule]. *)
Theorem get_parameters_elastic_BasicConv2d (op : SuperConv2D A) (nb nr own own' : Z)
    (nl : option Z) :
  let block := PBasicConv2d (PSuperConv2D op) (PLayer nb) (PLayer nr) in
  let count := (calculate_superconv2d_params op).1 + nb + nr in
  get_parameters (PModule own [block]) = count ∧
  get_parameters (PModule own [PSequential nl [block]]) = count ∧
  get_parameters (PModule own [PCustom own' [block]]) = count ∧
  get_parameters (PModule own [PCustom own' [PSequential nl [block]]]) = count.
Proof. simpl. unfold py_sum; simpl. repeat split; lia. Qed.

(** X19. Below a module that is neither a [CustomNNModule], an
    [nn.Sequential] nor a [BasicConv2d], nothing is elastic: the module
    adds everything it stores, an elastic convolution at its maximal
    capacity whatever its active configuration. *)
Theorem get_parameters_plain_module_is_maximal (own own' : Z)
    (children : list (pmodule A)) :
  get_parameters (PModule own [PModule own' children]) =
    numel (PModule own' children) ∧
  ∀ (op : SuperConv2D A) (nb nr : Z),
    get_parameters
      (PModule own [PModule own' [PBasicConv2d (PSuperConv2D op) (PLayer nb) (PLayer nr)]])
    = own' + (numel4 (weight op) +
              match bias op with
              | Some b => Z.of_nat (length b)
              | None => 0
              end + nb + nr).
Proof. split; [| intros]; simpl; unfold py_sum; simpl; lia. Qed.

Lemma params_map_depths (d : option Z → option Z) module :
  numel (map_depths d module) = numel module ∧
  module_params (map_depths d module) = module_params module ∧
  get_parameters (map_depths d module) = get_parameters module.
Proof.
  induction module as [n|op|conv bn relu IHc IHb IHr|nl items IH|own children IH
                       |own children IH] using pmodule_ind.
  - done.
  - done.
  - destruct IHc as (Nc & Mc & Gc), IHb as (Nb & Mb & Gb), IHr as (Nr & Mr & Gr).
    assert (numel (map_depths d (PBasicConv2d conv bn relu))
            = numel (PBasicConv2d conv bn relu)) as HN by (simpl; lia).
    split; [exact HN |]. split.
    + destruct conv; simpl in *; lia.
    + rewrite !get_parameters_unfold. simpl. lia.
  - split; [| split].
    + simpl. rewrite <- list_fmap_compose. apply py_sum_ext.
      eapply Forall_impl; [exact IH |]. by intros m (? & _).
    + simpl. rewrite <- list_fmap_compose. apply py_sum_ext.
      eapply Forall_impl; [exact IH |]. by intros m (_ & _ & ?).
    + rewrite !get_parameters_unfold. simpl.
      rewrite <- list_fmap_compose. apply py_sum_ext.
      eapply Forall_impl; [exact IH |]. by intros m (_ & ? & _).
  - assert (get_parameters (map_depths d (PCustom own children))
            = get_parameters (PCustom own children)) as HG.
    { rewrite !get_parameters_unfold. simpl.
      rewrite <- list_fmap_compose. apply py_sum_ext.
      eapply Forall_impl; [exact IH |]. by intros m (_ & ? & _). }
    split; [| split; [exact HG | exact HG]].
    simpl. f_equal. rewrite <- list_fmap_compose. apply py_sum_ext.
    eapply Forall_impl; [exact IH |]. by intros m (? & _).
  - assert (numel (map_depths d (PModule own children))
            = numel (PModule own children)) as HN.
    { simpl. f_equal. rewrite <- list_fmap_compose. apply py_sum_ext.
      eapply Forall_impl; [exact IH |]. by intros m (? & _). }
    split; [exact HN |]. split; [exact HN |].
    rewrite !get_parameters_unfold. simpl.
    rewrite <- list_fmap_compose. apply py_sum_ext.
    eapply Forall_impl; [exact IH |]. by intros m (_ & ? & _).
Qed.

(** X20. The count takes no account of active depths: whatever depth
    each [SuperSequential] of the model is set to, [get_parameters]
    reports the same number, the blocks beyond the active depth
    included. *)
Theorem get_parameters_ignores_depth (d : option Z → option Z) model :
  get_parameters (map_depths d model) = get_parameters model.
Proof. apply params_map_depths. Qed.
End get_parameters_properties.

(** ** The arguments of [InceptionResnetV1.__init__] and [load_weights]

    Of the constructor, the part that decides the classification head:
    the checks on [pretrained], [classify] and [num_classes], the
    creation of [self.logits] and the call of [load_weights].  Of
    [load_weights], the choice of the checkpoint; reading and downloading
    files is left out. *)

Inductive init_exn : Type :=
  | AssertionError
  | Exception
  | ValueError
  | TypeError
  | NegativeDimensionError.  (* the [RuntimeError] of a negative size *)

(** [s.endswith(suffix)] *)
Definition endswith (s suffix : string) : bool :=
  let n := String.length s in
  let m := String.length suffix in
  if (m <=? n)%nat then String.eqb (String.substring (n - m) m s) suffix else false.

(** Where [load_weights] takes the state dictionary from, and whether
    [load_state_dict] is strict. *)
Inductive checkpoint : Type :=
  | LocalFile (path : string)
  | ReleaseFile (url : string).

Record load_call : Type := mkLoadCall {
  load_from : checkpoint;
  load_strict : bool
}.

Definition vggface2_url : string :=
  "https://github.com/timesler/facenet-pytorch/releases/download/v2.2.9/20180402-114759-vggface2.pt".

Definition casia_webface_url : string :=
  "https://github.com/timesler/facenet-pytorch/releases/download/v2.2.9/20180408-102900-casia-webface.pt".

Definition load_weights (name : string) : init_exn + load_call :=
  if String.eqb name "vggface2" then inr (mkLoadCall (ReleaseFile vggface2_url) false)
  else if String.eqb name "casia-webface" then
    inr (mkLoadCall (ReleaseFile casia_webface_url) false)
  else if endswith name ".pt" then inr (mkLoadCall (LocalFile name) true)
  else inl ValueError.

(** [nn.Linear(512, out_features)]: torch rejects [None] as a size with
    a [TypeError] and a negative size with a [RuntimeError]. *)
Definition nn_Linear_512 (out_features : option Z) : init_exn + Z :=
  match out_features with
  | Some n => if n <? 0 then inl NegativeDimensionError else inr n
  | None => inl TypeError
  end.

(** What the constructor decides about the head: the output size of
    [self.logits] when the attribute exists, and the checkpoint to load. *)
Record head : Type := mkHead {
  head_classify : bool;
  head_logits : option Z;
  head_loaded : option load_call
}.

Definition InceptionResnetV1_init_head (pretrained : option string) (classify : bool)
    (num_classes : option Z) : init_exn + head :=
  (* the checks before the layers are defined *)
  match
    match pretrained with
    | Some s =>
        if String.eqb s "vggface2" then inr (Some 8631)
        else if String.eqb s "casia-webface" then inr (Some 10575)
        else if negb (String.eqb s "") then
          match num_classes with
          | Some n => inr (Some n)
          | None => inl AssertionError
          end
        else inr None
    | None =>
        if classify && negb (bool_decide (is_Some num_classes)) then inl Exception
        else inr None
    end
  with
  | inl e => inl e
  | inr tmp_classes =>
      (* [if pretrained is not None] *)
      match
        match pretrained with
        | Some s =>
            match nn_Linear_512 tmp_classes with
            | inl e => inl e
            | inr out =>
                match load_weights s with
                | inl e => inl e
                | inr call => inr (Some out, Some call)
                end
            end
        | None => inr (None, None)
        end
      with
      | inl e => inl e
      | inr (logits, loaded) =>
          (* [if self.classify and self.num_classes is not None] *)
          match classify, num_classes with
          | true, Some n =>
              match nn_Linear_512 (Some n) with
              | inl e => inl e
              | inr out => inr (mkHead classify (Some out) loaded)
              end
          | _, _ => inr (mkHead classify logits loaded)
          end
      end
  end.

(** [forward] reads [self.logits] exactly when [self.classify] is set. *)
Definition forward_finds_logits (hd : head) : Prop :=
  head_classify hd = true → is_Some (head_logits hd).

Lemma String_eqb_false (s t : string) : String.eqb s t = false ↔ s ≠ t.
Proof.
  destruct (String.eqb_spec s t) as [->|Hne]; split; try done.
Qed.

(** X21. Whenever the constructor gets past its argument checks with
    [classify] set, the attribute [self.logits] that [forward] reads
    exists. *)
Theorem InceptionResnetV1_init_logits_exist (pretrained : option string)
    (classify : bool) (num_classes : option Z) (hd : head) :
  InceptionResnetV1_init_head pretrained classify num_classes = inr hd →
  head_classify hd = classify ∧ forward_finds_logits hd.
Proof.
  unfold InceptionResnetV1_init_head, forward_finds_logits, nn_Linear_512.
  destruct pretrained as [s|], classify, num_classes as [n|];
    repeat match goal with
           | |- context [String.eqb ?a ?b] => destruct (String.eqb a b)
           end;
    cbn;
    try destruct (n <? 0);
    cbn;
    try (destruct (load_weights s) as [e|call]; cbn);
    try discriminate;
    intros [= <-]; (split; [reflexivity |]); cbn;
    intros Hc; first [discriminate Hc | eauto].
Qed.





(** ** The further properties at concrete inputs *)

(** A container whose second sub-operator raises. *)
Definition seq_raising : SuperSequential Z :=
  SuperSequential_init
    [ (fun x => Ok (x + 1)); (fun _ => Raise RuntimeError); (fun x => Ok (2 * x)) ].

(** A tree of four distinct objects. *)
Definition net_distinct : nn_module :=
  Node 0 [Node 1 [Node 2 []]; Node 3 []].

(** A stand-in for [conv2d] that returns its input. *)
Definition conv2d_stub (x : Z) (w : tensor Z) (b : option (tensor Z))
    (st : conv_stride) (pd : conv_padding) : result Z := Ok x.

Example init_head_no_classes :
  InceptionResnetV1_init_head None true None = inl Exception.
Proof. reflexivity. Qed.

Example init_head_unknown_name :
  InceptionResnetV1_init_head (Some "imagenet") false (Some 5) = inl ValueError.
Proof. reflexivity. Qed.

Example init_head_empty_name :
  InceptionResnetV1_init_head (Some "") false (Some 5) = inl TypeError.
Proof. reflexivity. Qed.

Example init_head_negative_classes :
  InceptionResnetV1_init_head None true (Some (-5)) = inl NegativeDimensionError.
Proof. reflexivity. Qed.

Example init_head_negative_classes_ignored :
  InceptionResnetV1_init_head (Some "vggface2") false (Some (-5)) =
    inr (mkHead false (Some 8631) (Some (mkLoadCall (ReleaseFile vggface2_url) false))).
Proof. reflexivity. Qed.

Example init_head_embedding_only :
  InceptionResnetV1_init_head None false None = inr (mkHead false None None).
Proof. reflexivity. Qed.

Example get_parameters_pnet_small : get_parameters pnet_small = 50.
Proof. reflexivity. Qed.

Example numel_pnet_small : numel pnet_small = 73.
Proof. reflexivity. Qed.


Lemma SuperConv2D_forward_repeatable_witness :
  set_subnet_config None None None conv_small = Ok (materialized conv_small) ∧
  SuperConv2D_forward conv2d_stub (materialized conv_small) 7 =
    Ok (7, materialized conv_small).
Proof.
  destruct (SuperConv2D_forward_repeatable conv2d_stub conv_small 7 7
              (materialized conv_small) ltac:(vm_compute; reflexivity))
    as (H1 & _ & _ & _ & _ & _ & H2).
  split; [exact H1 | exact H2].
Defined.

Lemma set_subnet_config_any_integer_witness :
  ∃ self' w,
    set_subnet_config None None (Some (-1)) conv_small = Ok self' ∧
    subnet self' !! "weight" = Some (T4 w) ∧
    has_shape4 w 2 1 1 1.
Proof.
  apply (set_subnet_config_any_integer None None (Some (-1)) conv_small).
  exact conv_small_shaped.
Defined.

Lemma active_count_is_materialized_numel_witness :
  (calculate_superconv2d_params conv_small).1 =
    numel4 (_subselect_weight (weight conv_small) 1 2 1) + 2 ∧
  (calculate_superconv2d_params conv_small).1 ≤ numel4 (weight conv_small) + 3.
Proof.
  apply (active_count_is_materialized_numel conv_small); simpl; try lia.
  exact conv_small_shaped.
Defined.

Lemma _subselect_weight_nested_witness :
  _subselect_weight (_subselect_weight (weight conv_small) 2 2 2) 1 3 1 =
    _subselect_weight (weight conv_small) 1 2 1.
Proof.
  apply (_subselect_weight_nested (weight conv_small) 2 2 2 1 3 1); lia.
Defined.

Lemma SuperSequential_forward_depth_add_witness :
  SuperSequential_forward seq5 10 (Some 3) =
    (y ← SuperSequential_forward seq5 10 (Some 1);
     run_layers (take 2 (drop 1 (layers seq5))) y).
Proof.
  apply (SuperSequential_forward_depth_add seq5 10 1 2). simpl; lia.
Defined.

Lemma SuperSequential_forward_propagates_witness :
  SuperSequential_forward seq_raising 10 (Some 7) = Raise RuntimeError.
Proof.
  apply (SuperSequential_forward_propagates seq_raising 10 11 1
           (fun _ => Raise RuntimeError) RuntimeError 7);
    [reflexivity | reflexivity | reflexivity | lia].
Defined.

Lemma modules_is_preorder_witness : modules net_distinct = [0; 1; 2; 3]%nat.
Proof.
  apply (modules_is_preorder net_distinct).
  simpl. repeat (constructor; [set_solver |]). constructor.
Defined.

Lemma set_config_frame_witness :
  ∃ h',
    set_config (<["ks" := [1; 2]]> (<["num_layers" := [3]]> ∅)) net_small heap_small
      = Ok h' ∧
    config_frame heap_small h'.
Proof.
  destruct (set_config_effect (<["ks" := [1; 2]]> (<["num_layers" := [3]]> ∅))
              net_small heap_small [1; 2] [3])
    as (h' & Hset & _); [vm_compute; reflexivity | vm_compute; reflexivity |].
  exists h'. split; [exact Hset |].
  exact (set_config_frame _ _ _ _ Hset).
Defined.

Lemma get_config_set_config_round_trip_witness :
  ∃ config h',
    get_config net_small heap_small = Ok config ∧
    set_config config net_small heap_small = Ok h' ∧
    get_config net_small h' = Ok config.
Proof.
  destruct (get_config_reads net_small heap_small) as (ks & nl & Hget & _).
  destruct (get_config_set_config_round_trip net_small heap_small _ Hget)
    as (h' & Hset & Hget').
  eexists _, h'. split; [exact Hget |]. split; [exact Hset | exact Hget'].
Defined.

Lemma pnet_small_wf : pmodule_wf pnet_small.
Proof.
  unfold pnet_small. cbn [pmodule_wf].
  split_and!; first [exact conv_small_shaped | exact I | simpl; lia].
Qed.

Lemma get_parameters_at_most_stored_witness :
  get_parameters pnet_small ≤ numel pnet_small.
Proof. apply (get_parameters_at_most_stored pnet_small). exact pnet_small_wf. Defined.

Lemma get_parameters_skips_bare_elements_witness :
  get_parameters
    (PModule 0 [PSequential None [PLayer 5; PSuperConv2D conv_small]; PLayer 40]) =
  get_parameters (PModule 0 [PLayer 40 : pmodule Z]).
Proof.
  apply (get_parameters_skips_bare_elements 0 None
           [PLayer 5; PSuperConv2D conv_small] [PLayer 40]).
  repeat constructor.
Defined.

Lemma InceptionResnetV1_init_logits_exist_witness :
  head_classify (mkHead true (Some 7) (Some (mkLoadCall (LocalFile "model.pt") true)))
    = true ∧
  forward_finds_logits
    (mkHead true (Some 7) (Some (mkLoadCall (LocalFile "model.pt") true))).
Proof.
  apply (InceptionResnetV1_init_logits_exist (Some "model.pt") true (Some 7)).
  reflexivity.
Defined.


(** ** The modules that [InceptionResnetV1.__init__] creates

    The constructors of the network and of its blocks, as far as the
    traversal sees them: which module objects are created and how they
    are registered.  A constructor allocates an identity for every
    object it creates (identities are only required to be distinct) and
    puts the object into the heap.  The initial weights of the elastic
    convolutions, the byte width of their elements, and the functions
    that the blocks of an elastic container compute are parameters. *)

Section topology.
Context {A X : Type}.
Variable weights : Z → Z → list (list (list (list A))).
Variable element_size : Z.
Variable forward_of : nn_module → X → result X.

(** A constructor: from the next free identity and the heap to the
    module it built, or an exception. *)
Definition build (T : Type) : Type :=
  nat * gmap nat (object A X) → result (T * (nat * gmap nat (object A X))).

Definition build_ret {T : Type} (v : T) : build T := fun st => Ok (v, st).

Definition build_bind {S T : Type} (m : build S) (k : S → build T) : build T :=
  fun st =>
    match m st with
    | Ok (v, st') => k v st'
    | Raise e => Raise e
    end.

Local Notation "'do' x <- m ; k" := (build_bind m (fun x => k))
  (at level 10, x name, m at level 100, k at level 200).

(** A new object. *)
Definition fresh (o : object A X) : build nat :=
  fun '(next, h) => Ok (next, (S next, <[next := o]> h)).

(** A module without sub-modules that is not elastic: [nn.Conv2d],
    [nn.BatchNorm2d], [nn.ReLU], [nn.MaxPool2d], ... *)
Definition layer : build nn_module :=
  do id <- fresh ObjModule; build_ret (Node id []).

(** [SuperConv2D(in_planes, out_planes, 3, stride=1, padding="same",
    bias=False)] *)
Definition new_SuperConv2D (in_planes out_planes : Z) : build nn_module :=
  fun st =>
    match
      SuperConv2D_init in_planes out_planes 3 (StrideInt 1) (PaddingStr "same")
        false (weights in_planes out_planes) [] element_size
    with
    | Ok op => (do id <- fresh (ObjSuperConv2D op); build_ret (Node id [])) st
    | Raise e => Raise e
    end.

(** [BasicConv2d(in_planes, out_planes, ...)]; [super] tells whether
    [Conv2d_class] is [SuperConv2D]. *)
Definition BasicConv2d_init (super : bool) (in_planes out_planes : Z)
    : build nn_module :=
  do id <- fresh ObjModule;
  do conv <- (if super then new_SuperConv2D in_planes out_planes else layer);
  do bn <- layer;
  do relu <- layer;
  build_ret (Node id [conv; bn; relu]).

Fixpoint build_all {T : Type} (ms : list (build T)) : build (list T) :=
  match ms with
  | [] => build_ret []
  | m :: ms' => do v <- m; do vs <- build_all ms'; build_ret (v :: vs)
  end.

(** [nn.Sequential] applied to its arguments. *)
Definition Sequential_init (args : list (build nn_module)) : build nn_module :=
  do items <- build_all args;
  do id <- fresh ObjModule;
  build_ret (Node id items).

Definition Block35_init : build nn_module :=
  do id <- fresh ObjModule;
  do branch0 <- BasicConv2d_init false 256 32;
  do branch1 <- Sequential_init
       [BasicConv2d_init false 256 32; BasicConv2d_init true 32 32];
  do branch2 <- Sequential_init
       [BasicConv2d_init false 256 32; BasicConv2d_init true 32 32;
        BasicConv2d_init true 32 32];
  do conv2d <- layer;
  do relu <- layer;
  build_ret (Node id [branch0; branch1; branch2; conv2d; relu]).

Definition Block17_init : build nn_module :=
  do id <- fresh ObjModule;
  do branch0 <- BasicConv2d_init false 896 128;
  do branch1 <- Sequential_init
       [BasicConv2d_init false 896 128; BasicConv2d_init false 128 128;
        BasicConv2d_init false 128 128];
  do conv2d <- layer;
  do relu <- layer;
  build_ret (Node id [branch0; branch1; conv2d; relu]).

Definition Block8_init (noReLU : bool) : build nn_module :=
  do id <- fresh ObjModule;
  do branch0 <- BasicConv2d_init false 1792 192;
  do branch1 <- Sequential_init
       [BasicConv2d_init false 1792 192; BasicConv2d_init false 192 192;
        BasicConv2d_init false 192 192];
  do conv2d <- layer;
  if noReLU then build_ret (Node id [branch0; branch1; conv2d])
  else do relu <- layer; build_ret (Node id [branch0; branch1; conv2d; relu]).

Definition Mixed_6a_init : build nn_module :=
  do id <- fresh ObjModule;
  do branch0 <- BasicConv2d_init false 256 384;
  do branch1 <- Sequential_init
       [BasicConv2d_init false 256 192; BasicConv2d_init true 192 192;
        BasicConv2d_init false 192 256];
  do branch2 <- layer;
  build_ret (Node id [branch0; branch1; branch2]).

Definition Mixed_7a_init : build nn_module :=
  do id <- fresh ObjModule;
  do branch0 <- Sequential_init
       [BasicConv2d_init false 896 256; BasicConv2d_init false 256 384];
  do branch1 <- Sequential_init
       [BasicConv2d_init false 896 256; BasicConv2d_init false 256 256];
  do branch2 <- Sequential_init
       [BasicConv2d_init false 896 256; BasicConv2d_init true 256 256;
        BasicConv2d_init false 256 256];
  do branch3 <- layer;
  build_ret (Node id [branch0; branch1; branch2; branch3]).

(** [_create_sequential(repeat, BlockType, scale)]: a [SuperSequential]
    of [repeat] new blocks [BlockType(scale=scale)]. *)
Definition _create_sequential (repeat : nat) (BlockType : build nn_module)
    : build nn_module :=
  do blocks <- build_all (replicate repeat BlockType);
  do id <- fresh (ObjSuperSequential (SuperSequential_init (forward_of <$> blocks)));
  build_ret (Node id blocks).

(** The configuration that the constructor applies. *)
Definition default_config : gmap string (list Z) :=
  <["num_layers" := [5; 10; 5]]>
    (<["ks" := [3; 3; 3; 3; 3; 3; 3; 3; 3; 3; 3; 3; 3; 3; 3; 3; 3; 3; 3]]> ∅).

(** The layers of [InceptionResnetV1.__init__] in the order in which
    they are registered; [with_logits] tells whether [self.logits] is
    created. *)
Definition InceptionResnetV1_modules (with_logits : bool) : build nn_module :=
  do id <- fresh ObjModule;
  do conv2d_1a <- BasicConv2d_init false 3 32;
  do conv2d_2a <- BasicConv2d_init true 32 32;
  do conv2d_2b <- BasicConv2d_init true 32 64;
  do maxpool_3a <- layer;
  do conv2d_3b <- BasicConv2d_init false 64 80;
  do conv2d_4a <- BasicConv2d_init false 80 192;
  do conv2d_4b <- BasicConv2d_init false 192 256;
  do repeat_1 <- _create_sequential 5 Block35_init;
  do mixed_6a <- Mixed_6a_init;
  do repeat_2 <- _create_sequential 10 Block17_init;
  do mixed_7a <- Mixed_7a_init;
  do repeat_3 <- _create_sequential 5 (Block8_init false);
  do block8 <- Block8_init true;
  do avgpool_1a <- layer;
  do dropout <- layer;
  do last_linear <- layer;
  do last_bn <- layer;
  let registered :=
    [conv2d_1a; conv2d_2a; conv2d_2b; maxpool_3a; conv2d_3b; conv2d_4a;
     conv2d_4b; repeat_1; mixed_6a; repeat_2; mixed_7a; repeat_3; block8;
     avgpool_1a; dropout; last_linear; last_bn] in
  if with_logits then
    do logits <- layer; build_ret (Node id (registered ++ [logits]))
  else build_ret (Node id registered).

(** The constructor: the layers, then [self.set_config(...)]. *)
Definition InceptionResnetV1_init (with_logits : bool)
    : result (nn_module * gmap nat (object A X)) :=
  match InceptionResnetV1_modules with_logits (0%nat, ∅) with
  | Ok (self, (_, h)) =>
      h ← set_config default_config self h;
      Ok (self, h)
  | Raise e => Raise e
  end.
End topology.

Section topology_properties.
Context {A X : Type}.
Variable weights : Z → Z → list (list (list (list A))).
Variable element_size : Z.
Variable forward_of : nn_module → X → result X.

Lemma InceptionResnetV1_modules_counts (with_logits : bool) :
  match InceptionResnetV1_modules weights element_size forward_of with_logits (0%nat, ∅) with
  | Ok (self, (_, h)) =>
      length (get_super_ops self h) = 19%nat ∧
      length (get_super_sequential_ops self h) = 3%nat ∧
      length (modules self) = (if with_logits then 550 else 549)%nat
  | Raise _ => False
  end.
Proof. destruct with_logits; vm_compute; repeat split. Qed.

(** X25. The constructor of the network always succeeds in building and
    configuring its modules: the traversal discovers 19 elastic
    convolutions and 3 elastic containers, exactly as many as the two
    lists of the configuration that the constructor applies, so no value
    is dropped and no operator is left out, and [get_config] on the new
    network returns that configuration: kernel size 3 nineteen times and
    the depths 5, 10 and 5. *)
Theorem InceptionResnetV1_init_configures_all (with_logits : bool) :
  ∃ self h,
    InceptionResnetV1_init weights element_size forward_of with_logits = Ok (self, h) ∧
    length (get_super_ops self h) = 19%nat ∧
    length (get_super_sequential_ops self h) = 3%nat ∧
    get_config self h = Ok default_config.
Proof.
  pose proof (InceptionResnetV1_modules_counts with_logits) as Hcount.
  unfold InceptionResnetV1_init.
  destruct (InceptionResnetV1_modules weights element_size forward_of with_logits
              (0%nat, ∅)) as [[self [next h0]]|e]; [| done].
  destruct Hcount as (Lconv & Lseq & _).
  destruct (set_config_effect default_config self h0
              [3; 3; 3; 3; 3; 3; 3; 3; 3; 3; 3; 3; 3; 3; 3; 3; 3; 3; 3] [5; 10; 5])
    as (h & Hset & Hsame & Hconv & Hseq & _);
    [vm_compute; reflexivity | vm_compute; reflexivity |].
  exists self, h. rewrite Hset, bind_Ok. split; [done |].
  rewrite (get_super_ops_same_types self h0 h Hsame).
  rewrite (get_super_sequential_ops_same_types self h0 h Hsame).
  split; [exact Lconv |]. split; [exact Lseq |].
  unfold get_config.
  rewrite (get_super_ops_same_types self h0 h Hsame).
  rewrite (get_super_sequential_ops_same_types self h0 h Hsame).
  rewrite (comprehension_lookup (read_subnet_kernel_size h) _
             [3; 3; 3; 3; 3; 3; 3; 3; 3; 3; 3; 3; 3; 3; 3; 3; 3; 3; 3]);
    [| by rewrite Lconv | exact Hconv].
  rewrite bind_Ok.
  rewrite (comprehension_lookup (read_num_layers h) _ [5; 10; 5]);
    [| by rewrite Lseq | exact Hseq].
  by rewrite bind_Ok.
Qed.
End topology_properties.
